(** * Vision Workbench: image buffers, the correlator view and the
    Levenberg-Marquardt driver

  A shallow embedding of
    - [vw/Image/ImageResource.h]   ([ImageFormat], [ImageBuffer]),
    - [vw/Stereo/CorrelatorView.h] ([CorrelatorView]),
    - the optimisation header ([levenberg_marquardt]),
  together with the properties of these functions that the design
  document of the stereo pipeline relies on.

  Conventions.  A C++ [int32] is a [Z] kept in range by [to_int32], a
  [uint32] by [to_uint32] and an [ssize_t] by [to_ssize]; every arithmetic
  operation of the source is followed by the conversion of its result type.
  Methods that can [vw_throw] return a [Result]; code that writes to the
  log runs in the state monad [Logged]. *)

From Stdlib Require Import ZArith QArith Lia Bool.
From stdpp Require Import base list strings pretty.

Local Open Scope Z_scope.

(** ** Machine integers *)

Module Int.

(** Two's complement reading of the low [w] bits of [z]. *)
Definition wrap (w : Z) (z : Z) : Z := (z + 2 ^ (w - 1)) mod 2 ^ w - 2 ^ (w - 1).

Definition to_int32 (z : Z) : Z := wrap 32 z.
Definition to_uint32 (z : Z) : Z := z mod 2 ^ 32.
Definition to_ssize (z : Z) : Z := wrap 64 z.

Definition int32_range (z : Z) : Prop := - 2 ^ 31 <= z < 2 ^ 31.
Definition ssize_range (z : Z) : Prop := - 2 ^ 63 <= z < 2 ^ 63.

Lemma to_int32_range z : int32_range (to_int32 z).
Proof.
  unfold int32_range, to_int32, wrap.
  pose proof (Z.mod_pos_bound (z + 2 ^ (32 - 1)) (2 ^ 32) ltac:(lia)). lia.
Qed.

Lemma to_int32_id z : int32_range z -> to_int32 z = z.
Proof.
  unfold int32_range, to_int32, wrap. intros Hz.
  rewrite Z.mod_small by lia. lia.
Qed.

Lemma to_int32_idem z : to_int32 (to_int32 z) = to_int32 z.
Proof. apply to_int32_id, to_int32_range. Qed.

Lemma to_ssize_id z : ssize_range z -> to_ssize z = z.
Proof.
  unfold ssize_range, to_ssize, wrap. intros Hz.
  rewrite Z.mod_small by lia. lia.
Qed.

Lemma to_uint32_id z : 0 <= z < 2 ^ 32 -> to_uint32 z = z.
Proof. intros Hz. unfold to_uint32. now rewrite Z.mod_small. Qed.

(** Wrapping commutes with the ring operations: the low bits of a sum
    depend only on the low bits of the summands. *)
Lemma to_int32_add_l a b : to_int32 (to_int32 a + b) = to_int32 (a + b).
Proof.
  unfold to_int32, wrap. f_equal.
  replace ((a + 2 ^ (32 - 1)) mod 2 ^ 32 - 2 ^ (32 - 1) + b + 2 ^ (32 - 1))
    with ((a + 2 ^ (32 - 1)) mod 2 ^ 32 + b) by lia.
  rewrite Zplus_mod_idemp_l. f_equal. lia.
Qed.

Lemma to_int32_sub_l a b : to_int32 (to_int32 a - b) = to_int32 (a - b).
Proof. rewrite <- !Z.add_opp_r. apply to_int32_add_l. Qed.

Lemma to_int32_add_r a b : to_int32 (a + to_int32 b) = to_int32 (a + b).
Proof. rewrite (Z.add_comm a), to_int32_add_l. f_equal. lia. Qed.

Lemma to_int32_sub_r a b : to_int32 (a - to_int32 b) = to_int32 (a - b).
Proof.
  unfold to_int32, wrap.
  change (2 ^ (32 - 1)) with 2147483648. change (2 ^ 32) with 4294967296.
  f_equal.
  replace (a - ((b + 2147483648) mod 4294967296 - 2147483648) + 2147483648)
    with (a + 4294967296 - (b + 2147483648) mod 4294967296) by lia.
  rewrite Zminus_mod_idemp_r. f_equal. lia.
Qed.

Lemma to_int32_sub_both a b : to_int32 (to_int32 a - to_int32 b) = to_int32 (a - b).
Proof. now rewrite to_int32_sub_l, to_int32_sub_r. Qed.

End Int.

(** ** [vw/Math]: integer vectors and bounding boxes

  [vw/Math/Vector.h] and [vw/Math/BBox.h] are not among the sources; their
  types are described here as the design document and the code that uses
  them show them. *)

Module Math.
Import Int.

(** [Vector2i], a pair of [int32] with componentwise [+] and [-]. *)
Record Vector2i : Type := mkVector2i { vx : Z; vy : Z }.

Definition vadd (a b : Vector2i) : Vector2i :=
  mkVector2i (to_int32 (vx a + vx b)) (to_int32 (vy a + vy b)).
Definition vsub (a b : Vector2i) : Vector2i :=
  mkVector2i (to_int32 (vx a - vx b)) (to_int32 (vy a - vy b)).

(** Modelled from the spec: a rectangle has integer min and max corners,
    min inclusive and max exclusive; width and height are derived from
    them; it is empty iff its width or its height is not positive. *)
Record BBox2i : Type := mkBBox2i { bmin : Vector2i; bmax : Vector2i }.

(** [BBox2i(minx, miny, width, height)]: the constructor from four scalars
    takes a corner and an extent, as [BBox2i(0,0,cols(),rows())] for a whole
    image in [DiskImageResource::read] shows. *)
Definition BBox2i_xywh (minx miny w h : Z) : BBox2i :=
  mkBBox2i (mkVector2i minx miny)
           (mkVector2i (to_int32 (minx + w)) (to_int32 (miny + h))).

Definition width (b : BBox2i) : Z := to_int32 (vx (bmax b) - vx (bmin b)).
Definition height (b : BBox2i) : Z := to_int32 (vy (bmax b) - vy (bmin b)).

(** empty iff width <= 0 or height <= 0 *)
Definition empty (b : BBox2i) : bool := (width b <=? 0) || (height b <=? 0).

Definition vec_in_range (v : Vector2i) : Prop :=
  int32_range (vx v) /\ int32_range (vy v).

#[global] Instance Vector2i_eq_dec : EqDecision Vector2i.
Proof. solve_decision. Defined.
#[global] Instance BBox2i_eq_dec : EqDecision BBox2i.
Proof. solve_decision. Defined.

Lemma width_range b : int32_range (width b).
Proof. apply to_int32_range. Qed.

Lemma height_range b : int32_range (height b).
Proof. apply to_int32_range. Qed.

(** A box built from a corner and an extent has that extent. *)
Lemma width_xywh minx miny w h : width (BBox2i_xywh minx miny w h) = to_int32 w.
Proof.
  unfold width, BBox2i_xywh; simpl. rewrite to_int32_sub_l. f_equal. lia.
Qed.

Lemma height_xywh minx miny w h : height (BBox2i_xywh minx miny w h) = to_int32 h.
Proof.
  unfold height, BBox2i_xywh; simpl. rewrite to_int32_sub_l. f_equal. lia.
Qed.

End Math.


(** ** [vw/Image/ImageResource.h] *)

Module Image.
Import Int Math.

(** A [void*] into pixel storage: the allocation it points into and the
    byte offset inside it.  [(uint8* )p + k] moves the offset only. *)
Record pointer : Type := mkPointer { ptr_block : N; ptr_offset : Z }.

Definition null : pointer := mkPointer 0%N 0.

Definition ptr_add (p : pointer) (k : Z) : pointer :=
  mkPointer (ptr_block p) (ptr_offset p + k).

Section Format.

(** [vw/Image/PixelTypeInfo.h] is not among the sources: the two
    enumerations and their size tables are parameters. *)
Variables PixelFormatEnum ChannelTypeEnum : Type.
Variable VW_PIXEL_UNKNOWN : PixelFormatEnum.
Variable VW_CHANNEL_UNKNOWN : ChannelTypeEnum.
Variable num_channels_nothrow : PixelFormatEnum -> Z.
Variable channel_size_nothrow : ChannelTypeEnum -> Z.

(** [struct ImageFormat]; [cols], [rows] and [planes] are [uint32]. *)
Record ImageFormat : Type := mkImageFormat {
  cols : Z;
  rows : Z;
  planes : Z;
  pixel_format : PixelFormatEnum;
  channel_type : ChannelTypeEnum
}.

(** [ImageFormat::ImageFormat()] *)
Definition ImageFormat_new : ImageFormat :=
  mkImageFormat 0 0 0 VW_PIXEL_UNKNOWN VW_CHANNEL_UNKNOWN.

(** [ImageFormat::complete] *)
Definition complete (f : ImageFormat) : bool :=
  negb (cols f =? 0)
  && negb (rows f =? 0)
  && negb (planes f =? 0)
  && (num_channels_nothrow (pixel_format f) >? 0)
  && (channel_size_nothrow (channel_type f) >? 0).

(** [ImageFormat::same_size] *)
Definition same_size (a b : ImageFormat) : bool :=
  (cols a =? cols b) && (rows a =? rows b) && (planes a =? planes b).

(** [struct ImageBuffer]; the three strides are [ssize_t]. *)
Record ImageBuffer : Type := mkImageBuffer {
  data : pointer;
  format : ImageFormat;
  cstride : Z;
  rstride : Z;
  pstride : Z;
  unpremultiplied : bool
}.

(** [ImageBuffer::ImageBuffer()] *)
Definition ImageBuffer_new : ImageBuffer :=
  mkImageBuffer null ImageFormat_new 0 0 0 false.

Definition buf_cols (b : ImageBuffer) : Z := to_int32 (cols (format b)).
Definition buf_rows (b : ImageBuffer) : Z := to_int32 (rows (format b)).
Definition buf_planes (b : ImageBuffer) : Z := to_int32 (planes (format b)).

(** [ImageBuffer::cropped]: [self] is a copy of [*this] in which [data],
    [format.cols] and [format.rows] are then assigned.  The offset is
    computed in [ssize_t]; the extents are converted from [int32] to
    [uint32] by the assignment. *)
Definition cropped (b : ImageBuffer) (bbox : BBox2i) : ImageBuffer :=
  let self := b in
  let self_data :=
    ptr_add (data self)
      (to_ssize (to_ssize (cstride b * vx (bmin bbox))
                 + to_ssize (rstride b * vy (bmin bbox)))) in
  mkImageBuffer
    self_data
    (mkImageFormat (to_uint32 (width bbox)) (to_uint32 (height bbox))
       (planes (format self)) (pixel_format (format self))
       (channel_type (format self)))
    (cstride self) (rstride self) (pstride self) (unpremultiplied self).

(** [ImageBuffer::operator()]: the address of pixel (i, j, p). *)
Definition pixel_address (b : ImageBuffer) (i j p : Z) : pointer :=
  ptr_add (data b)
    (to_ssize (to_ssize (to_ssize (i * cstride b) + to_ssize (j * rstride b))
               + to_ssize (p * pstride b))).

(** *** Properties *)

(** C8.  A format is complete exactly when its three dimensions are non-zero
    and both its pixel format and its channel type have a positive size. *)
Theorem complete_iff (f : ImageFormat) :
  complete f = true <->
  cols f <> 0 /\ rows f <> 0 /\ planes f <> 0
  /\ 0 < num_channels_nothrow (pixel_format f)
  /\ 0 < channel_size_nothrow (channel_type f).
Proof.
  unfold complete.
  rewrite !andb_true_iff, !negb_true_iff, !Z.eqb_neq, !Z.gtb_lt.
  tauto.
Qed.

(** With [uint32] dimensions, non-zero and positive are the same. *)
Lemma complete_positive (f : ImageFormat) :
  0 <= cols f -> 0 <= rows f -> 0 <= planes f ->
  (complete f = true <->
   0 < cols f /\ 0 < rows f /\ 0 < planes f
   /\ 0 < num_channels_nothrow (pixel_format f)
   /\ 0 < channel_size_nothrow (channel_type f)).
Proof. intros Hc Hr Hp. rewrite complete_iff. lia. Qed.

(** The default format is never complete. *)
Lemma ImageFormat_new_incomplete : complete ImageFormat_new = false.
Proof. reflexivity. Qed.

(** Without overflow the conversions are the identity: the offset is
    [cstride * min.x + rstride * min.y] and the extent is the box's. *)
Lemma cropped_exact (b : ImageBuffer) (bbox : BBox2i) :
  ssize_range (cstride b * vx (bmin bbox)) ->
  ssize_range (rstride b * vy (bmin bbox)) ->
  ssize_range (cstride b * vx (bmin bbox) + rstride b * vy (bmin bbox)) ->
  0 <= width bbox -> 0 <= height bbox ->
  ptr_offset (data (cropped b bbox))
  = ptr_offset (data b) + (cstride b * vx (bmin bbox) + rstride b * vy (bmin bbox))
  /\ cols (format (cropped b bbox)) = width bbox
  /\ rows (format (cropped b bbox)) = height bbox.
Proof.
  intros H1 H2 H3 Hw Hh. unfold cropped; simpl.
  rewrite (to_ssize_id _ H1), (to_ssize_id _ H2), (to_ssize_id _ H3).
  pose proof (width_range bbox) as Rw. pose proof (height_range bbox) as Rh.
  unfold int32_range in Rw, Rh.
  rewrite !to_uint32_id by lia. auto.
Qed.

(** C9.  Cropping moves the data handle inside the same allocation by the
    byte offset of the box's min corner, [cstride * min.x + rstride * min.y]
    computed in [ssize_t], and sets the extent to the box's width and
    height, converted to [uint32]; the strides, the plane count, the pixel
    format, the channel type and the premultiplication flag are those of
    the original.  For a box that is not inverted and an offset that does
    not overflow the conversions change nothing. *)
Theorem cropped_frame (b : ImageBuffer) (bbox : BBox2i) :
  let c := cropped b bbox in
  ptr_block (data c) = ptr_block (data b)
  /\ ptr_offset (data c)
     = ptr_offset (data b)
       + to_ssize (to_ssize (cstride b * vx (bmin bbox))
                   + to_ssize (rstride b * vy (bmin bbox)))
  /\ cols (format c) = to_uint32 (width bbox)
  /\ rows (format c) = to_uint32 (height bbox)
  /\ cstride c = cstride b /\ rstride c = rstride b /\ pstride c = pstride b
  /\ planes (format c) = planes (format b)
  /\ pixel_format (format c) = pixel_format (format b)
  /\ channel_type (format c) = channel_type (format b)
  /\ unpremultiplied c = unpremultiplied b
  /\ (ssize_range (cstride b * vx (bmin bbox)) ->
      ssize_range (rstride b * vy (bmin bbox)) ->
      ssize_range (cstride b * vx (bmin bbox) + rstride b * vy (bmin bbox)) ->
      0 <= width bbox -> 0 <= height bbox ->
      ptr_offset (data c)
      = ptr_offset (data b)
        + (cstride b * vx (bmin bbox) + rstride b * vy (bmin bbox))
      /\ cols (format c) = width bbox
      /\ rows (format c) = height bbox).
Proof.
  cbv zeta. repeat split; try reflexivity;
    destruct (cropped_exact b bbox) as (Ho & Hc & Hr); assumption.
Qed.

(** X1.  Pixel (i, j, p) of the crop is pixel (i + min.x, j + min.y, p) of the
    original: cropping shares the storage, it copies nothing. *)
Lemma cropped_pixel_address (b : ImageBuffer) (bbox : BBox2i) (i j p : Z) :
  let mx := vx (bmin bbox) in
  let my := vy (bmin bbox) in
  ssize_range (cstride b * mx) -> ssize_range (rstride b * my) ->
  ssize_range (cstride b * mx + rstride b * my) ->
  ssize_range (i * cstride b) -> ssize_range (j * rstride b) ->
  ssize_range (i * cstride b + j * rstride b) ->
  ssize_range (p * pstride b) ->
  ssize_range (i * cstride b + j * rstride b + p * pstride b) ->
  ssize_range ((i + mx) * cstride b) -> ssize_range ((j + my) * rstride b) ->
  ssize_range ((i + mx) * cstride b + (j + my) * rstride b) ->
  ssize_range ((i + mx) * cstride b + (j + my) * rstride b + p * pstride b) ->
  pixel_address (cropped b bbox) i j p = pixel_address b (i + mx) (j + my) p.
Proof.
  cbv zeta. intros H1 H2 H3 H4 H5 H6 H7 H8 H9 H10 H11 H12.
  unfold pixel_address, cropped, ptr_add; simpl.
  rewrite (to_ssize_id _ H1), (to_ssize_id _ H2), (to_ssize_id _ H3),
    (to_ssize_id _ H4), (to_ssize_id _ H5), (to_ssize_id _ H6),
    (to_ssize_id _ H7), (to_ssize_id _ H8), (to_ssize_id _ H9),
    (to_ssize_id _ H10), (to_ssize_id _ H11), (to_ssize_id _ H12).
  f_equal. lia.
Qed.

(** *** Buffers laid out from a format *)

(** [channel_size] and [num_channels], the versions that throw for an
    unknown type: [None] stands for the exception.  Their results are
    [uint32]. *)
Variable num_channels : PixelFormatEnum -> option Z.
Variable channel_size : ChannelTypeEnum -> option Z.

(** [explicit ImageBuffer(ImageFormat format, void *data, bool
    unpremultiplied = false)]: the strides of a buffer without gaps. *)
Definition ImageBuffer_of (f : ImageFormat) (d : pointer) (u : bool)
  : option ImageBuffer :=
  match channel_size (channel_type f), num_channels (pixel_format f) with
  | Some cs, Some nc =>
      let cstride' := to_ssize (to_uint32 (cs * nc)) in
      let rstride' := to_ssize (cstride' * cols f) in
      let pstride' := to_ssize (rstride' * rows f) in
      Some (mkImageBuffer d f cstride' rstride' pstride' u)
  | _, _ => None
  end.

(** [ImageBuffer::byte_size]: [planes() * pstride] as a [size_t]. *)
Definition byte_size (b : ImageBuffer) : Z :=
  to_ssize (buf_planes b * pstride b) mod 2 ^ 64.

(** The byte offset of pixel (i, j, p) from the start of the buffer. *)
Definition pixel_offset (b : ImageBuffer) (i j p : Z) : Z :=
  ptr_offset (pixel_address b i j p) - ptr_offset (data b).

Lemma product_bounds (c w h n i j p : Z) :
  0 < c -> 0 <= i < w -> 0 <= j < h -> 0 <= p < n ->
  0 < c * w /\ c * w <= c * w * h /\ c * w * h <= c * w * h * n
  /\ 0 <= i * c /\ 0 <= j * (c * w) /\ 0 <= p * (c * w * h)
  /\ i * c + j * (c * w) + p * (c * w * h) + c <= c * w * h * n.
Proof.
  intros Hc Hi Hj Hp.
  assert (H1 : 0 < c * w) by nia.
  assert (H2 : 0 < c * w * h) by nia.
  assert (H3 : i * c + c <= c * w) by nia.
  assert (H4 : j * (c * w) + c * w <= c * w * h) by nia.
  assert (H5 : p * (c * w * h) + c * w * h <= c * w * h * n) by nia.
  repeat split; nia.
Qed.

(** The strides of a buffer laid out from its format, when the whole
    buffer is addressable. *)
Lemma ImageBuffer_of_strides (f : ImageFormat) (d : pointer) (u : bool)
    (b : ImageBuffer) (cs nc : Z) :
  ImageBuffer_of f d u = Some b ->
  channel_size (channel_type f) = Some cs ->
  num_channels (pixel_format f) = Some nc ->
  0 < cs * nc < 2 ^ 32 -> 0 < cols f -> 0 < rows f ->
  cs * nc * cols f * rows f < 2 ^ 63 ->
  data b = d /\ format b = f
  /\ cstride b = cs * nc
  /\ rstride b = cs * nc * cols f
  /\ pstride b = cs * nc * cols f * rows f.
Proof.
  intros Hb Hcs Hnc Hc Hw Hh Hsize. unfold ImageBuffer_of in Hb.
  rewrite Hcs, Hnc in Hb. injection Hb as <-. simpl.
  assert (H1 : 0 < cs * nc * cols f) by nia.
  assert (H2 : cs * nc <= cs * nc * cols f) by nia.
  assert (H3 : cs * nc * cols f <= cs * nc * cols f * rows f) by nia.
  rewrite (to_uint32_id (cs * nc)) by lia.
  rewrite (to_ssize_id (cs * nc)) by (unfold ssize_range; lia).
  rewrite (to_ssize_id (cs * nc * cols f)) by (unfold ssize_range; lia).
  rewrite (to_ssize_id (cs * nc * cols f * rows f)) by (unfold ssize_range; lia).
  auto.
Qed.

(** X4.  In a buffer laid out from its format every pixel within the extent
    lies, with all its bytes, inside the [byte_size] bytes that start at
    [data], at the offset its index in plane, row and column order gives. *)
Theorem packed_pixel_in_bounds (f : ImageFormat) (d : pointer) (u : bool)
    (b : ImageBuffer) (cs nc i j p : Z) :
  ImageBuffer_of f d u = Some b ->
  channel_size (channel_type f) = Some cs ->
  num_channels (pixel_format f) = Some nc ->
  0 < cs * nc < 2 ^ 32 ->
  planes f < 2 ^ 31 ->
  cs * nc * cols f * rows f * planes f < 2 ^ 63 ->
  0 <= i < cols f -> 0 <= j < rows f -> 0 <= p < planes f ->
  ptr_block (pixel_address b i j p) = ptr_block d
  /\ pixel_offset b i j p = cs * nc * (i + cols f * (j + rows f * p))
  /\ 0 <= pixel_offset b i j p
  /\ pixel_offset b i j p + cstride b <= byte_size b
  /\ byte_size b = cs * nc * cols f * rows f * planes f.
Proof.
  intros Hb Hcs Hnc Hc Hpl Hsize Hi Hj Hp.
  destruct (product_bounds (cs * nc) (cols f) (rows f) (planes f) i j p)
    as (B1 & B2 & B3 & B4 & B5 & B6 & B7); try lia.
  destruct (ImageBuffer_of_strides f d u b cs nc Hb Hcs Hnc Hc) as
    (Hd & Hf & Sc & Sr & Sp); try lia.
  assert (Hbs : byte_size b = cs * nc * cols f * rows f * planes f).
  { unfold byte_size, buf_planes. rewrite Hf, Sp.
    rewrite (to_int32_id (planes f)) by (unfold int32_range; lia).
    replace (planes f * (cs * nc * cols f * rows f))
      with (cs * nc * cols f * rows f * planes f) by lia.
    rewrite to_ssize_id by (unfold ssize_range; lia).
    apply Z.mod_small. lia. }
  assert (Hoff : pixel_offset b i j p = i * (cs * nc) + j * (cs * nc * cols f)
                                        + p * (cs * nc * cols f * rows f)).
  { unfold pixel_offset, pixel_address, ptr_add; simpl. rewrite Sc, Sr, Sp.
    rewrite (to_ssize_id (i * (cs * nc))) by (unfold ssize_range; lia).
    rewrite (to_ssize_id (j * (cs * nc * cols f))) by (unfold ssize_range; lia).
    rewrite (to_ssize_id (p * (cs * nc * cols f * rows f))) by (unfold ssize_range; lia).
    rewrite (to_ssize_id (i * (cs * nc) + j * (cs * nc * cols f)))
      by (unfold ssize_range; lia).
    rewrite to_ssize_id by (unfold ssize_range; lia). lia. }
  split; [unfold pixel_address, ptr_add; simpl; now rewrite Hd|].
  rewrite Hoff, Hbs, Sc. repeat split; lia.
Qed.

(** X5.  In such a buffer two pixels within the extent share their address only
    if they are the same pixel. *)
Theorem packed_pixels_are_distinct (f : ImageFormat) (d : pointer) (u : bool)
    (b : ImageBuffer) (cs nc i j p i' j' p' : Z) :
  ImageBuffer_of f d u = Some b ->
  channel_size (channel_type f) = Some cs ->
  num_channels (pixel_format f) = Some nc ->
  0 < cs * nc < 2 ^ 32 ->
  planes f < 2 ^ 31 ->
  cs * nc * cols f * rows f * planes f < 2 ^ 63 ->
  0 <= i < cols f -> 0 <= j < rows f -> 0 <= p < planes f ->
  0 <= i' < cols f -> 0 <= j' < rows f -> 0 <= p' < planes f ->
  pixel_address b i j p = pixel_address b i' j' p' ->
  i = i' /\ j = j' /\ p = p'.
Proof.
  intros Hb Hcs Hnc Hc Hpl Hsize Hi Hj Hp Hi' Hj' Hp' Heq.
  destruct (packed_pixel_in_bounds f d u b cs nc i j p) as (_ & O1 & _); try assumption.
  destruct (packed_pixel_in_bounds f d u b cs nc i' j' p') as (_ & O2 & _); try assumption.
  unfold pixel_offset in O1, O2. rewrite Heq in O1. rewrite O1 in O2.
  assert (Hidx : i + cols f * (j + rows f * p) = i' + cols f * (j' + rows f * p')) by nia.
  assert (Hjp : j + rows f * p = j' + rows f * p').
  { destruct (Z.lt_trichotomy (j + rows f * p) (j' + rows f * p')) as [Hlt|[He|Hgt]];
      [exfalso; nia | exact He | exfalso; nia]. }
  assert (Hi0 : i = i') by nia.
  assert (Hp0 : p = p').
  { destruct (Z.lt_trichotomy p p') as [Hlt|[He|Hgt]];
      [exfalso; nia | exact He | exfalso; nia]. }
  repeat split; [assumption | nia | assumption].
Qed.

(** X2.  Cropping to the whole image changes nothing. *)
Theorem cropped_to_whole_image (b : ImageBuffer) :
  0 <= cols (format b) < 2 ^ 31 -> 0 <= rows (format b) < 2 ^ 31 ->
  cropped b (BBox2i_xywh 0 0 (buf_cols b) (buf_rows b)) = b.
Proof.
  intros Hc Hr. unfold cropped, buf_cols, buf_rows.
  rewrite width_xywh, height_xywh, !to_int32_idem.
  rewrite (to_int32_id (cols (format b))) by (unfold int32_range; lia).
  rewrite (to_int32_id (rows (format b))) by (unfold int32_range; lia).
  rewrite !to_uint32_id by lia. simpl.
  rewrite !Z.mul_0_r. change (to_ssize 0) with 0. simpl. change (to_ssize 0) with 0.
  destruct b as [[blk off] [c r pl pf ct] cs rs ps up]; simpl.
  unfold ptr_add; simpl. now rewrite Z.add_0_r.
Qed.

(** Strides and coordinates for which the offsets of two crops in a row
    stay within [ssize_t] and [int32]. *)
Definition modest (z : Z) : Prop := - 2 ^ 29 <= z <= 2 ^ 29.

(** X3.  A crop of a crop is one crop of the original, by the second box moved
    by the min corner of the first. *)
Theorem cropped_twice (b : ImageBuffer) (b1 b2 : BBox2i) :
  modest (cstride b) -> modest (rstride b) ->
  modest (vx (bmin b1)) -> modest (vy (bmin b1)) ->
  modest (vx (bmin b2)) -> modest (vy (bmin b2)) ->
  cropped (cropped b b1) b2
  = cropped b (mkBBox2i (vadd (bmin b2) (bmin b1)) (vadd (bmax b2) (bmin b1))).
Proof.
  unfold modest. intros Hc Hr Hx1 Hy1 Hx2 Hy2.
  assert (Hmul : forall s x, - 2 ^ 29 <= s <= 2 ^ 29 -> - 2 ^ 30 <= x <= 2 ^ 30 ->
                             - 2 ^ 59 <= s * x <= 2 ^ 59) by (intros s x Hs Hx; nia).
  pose proof (Hmul _ (vx (bmin b1)) Hc ltac:(lia)) as M1.
  pose proof (Hmul _ (vy (bmin b1)) Hr ltac:(lia)) as M2.
  pose proof (Hmul _ (vx (bmin b2)) Hc ltac:(lia)) as M3.
  pose proof (Hmul _ (vy (bmin b2)) Hr ltac:(lia)) as M4.
  pose proof (Hmul _ (vx (bmin b2) + vx (bmin b1)) Hc ltac:(lia)) as M5.
  pose proof (Hmul _ (vy (bmin b2) + vy (bmin b1)) Hr ltac:(lia)) as M6.
  unfold cropped, ptr_add; simpl.
  assert (Hw : width (mkBBox2i (vadd (bmin b2) (bmin b1)) (vadd (bmax b2) (bmin b1)))
               = width b2).
  { unfold width, vadd; simpl. rewrite to_int32_sub_both. f_equal. lia. }
  assert (Hh : height (mkBBox2i (vadd (bmin b2) (bmin b1)) (vadd (bmax b2) (bmin b1)))
               = height b2).
  { unfold height, vadd; simpl. rewrite to_int32_sub_both. f_equal. lia. }
  rewrite Hw, Hh.
  rewrite (to_int32_id (vx (bmin b2) + vx (bmin b1))) by (unfold int32_range; lia).
  rewrite (to_int32_id (vy (bmin b2) + vy (bmin b1))) by (unfold int32_range; lia).
  repeat match goal with
         | |- context [to_ssize ?t] => rewrite (to_ssize_id t) by (unfold ssize_range; lia)
         end.
  f_equal. f_equal. lia.
Qed.

End Format.

Arguments mkImageFormat {PixelFormatEnum ChannelTypeEnum}.
Arguments cols {PixelFormatEnum ChannelTypeEnum}.
Arguments rows {PixelFormatEnum ChannelTypeEnum}.
Arguments planes {PixelFormatEnum ChannelTypeEnum}.
Arguments pixel_format {PixelFormatEnum ChannelTypeEnum}.
Arguments channel_type {PixelFormatEnum ChannelTypeEnum}.
Arguments mkImageBuffer {PixelFormatEnum ChannelTypeEnum}.
Arguments data {PixelFormatEnum ChannelTypeEnum}.
Arguments format {PixelFormatEnum ChannelTypeEnum}.
Arguments cstride {PixelFormatEnum ChannelTypeEnum}.
Arguments rstride {PixelFormatEnum ChannelTypeEnum}.
Arguments pstride {PixelFormatEnum ChannelTypeEnum}.
Arguments unpremultiplied {PixelFormatEnum ChannelTypeEnum}.
Arguments cropped {PixelFormatEnum ChannelTypeEnum}.
Arguments pixel_address {PixelFormatEnum ChannelTypeEnum}.

(** *** An instance: the formats the plate tool dispatches on *)

Inductive PixelFormat : Type :=
| VW_PIXEL_UNKNOWN | VW_PIXEL_GRAY | VW_PIXEL_GRAYA | VW_PIXEL_RGB | VW_PIXEL_RGBA.

Inductive ChannelType : Type :=
| VW_CHANNEL_UNKNOWN | VW_CHANNEL_UINT8 | VW_CHANNEL_INT16.

Definition channels_of (f : PixelFormat) : Z :=
  match f with
  | VW_PIXEL_UNKNOWN => 0
  | VW_PIXEL_GRAY => 1
  | VW_PIXEL_GRAYA => 2
  | VW_PIXEL_RGB => 3
  | VW_PIXEL_RGBA => 4
  end.

Definition bytes_of (c : ChannelType) : Z :=
  match c with
  | VW_CHANNEL_UNKNOWN => 0
  | VW_CHANNEL_UINT8 => 1
  | VW_CHANNEL_INT16 => 2
  end.

Definition is_complete (f : ImageFormat PixelFormat ChannelType) : bool :=
  complete PixelFormat ChannelType channels_of bytes_of f.

(** A 640 by 480 RGB image of bytes, stored without gaps. *)
Definition rgb_vga : ImageBuffer PixelFormat ChannelType :=
  mkImageBuffer (mkPointer 7%N 0)
    (mkImageFormat 640 480 1 VW_PIXEL_RGB VW_CHANNEL_UINT8)
    3 1920 921600 false.

Definition window : BBox2i := mkBBox2i (mkVector2i 10 20) (mkVector2i 110 70).

Example rgb_vga_complete : is_complete (format rgb_vga) = true.
Proof. reflexivity. Qed.

Example unknown_channel_incomplete :
  is_complete (mkImageFormat 640 480 1 VW_PIXEL_RGB VW_CHANNEL_UNKNOWN) = false.
Proof. reflexivity. Qed.

Example no_rows_incomplete :
  is_complete (mkImageFormat 640 0 1 VW_PIXEL_RGB VW_CHANNEL_UINT8) = false.
Proof. reflexivity. Qed.

Example cropped_rgb_vga :
  cropped rgb_vga window
  = mkImageBuffer (mkPointer 7%N 38430)
      (mkImageFormat 100 50 1 VW_PIXEL_RGB VW_CHANNEL_UINT8)
      3 1920 921600 false.
Proof. reflexivity. Qed.

Lemma cropped_frame_witness :
  ptr_block (data (cropped rgb_vga window)) = 7%N
  /\ ptr_offset (data (cropped rgb_vga window))
     = ptr_offset (data rgb_vga)
       + (cstride rgb_vga * vx (bmin window) + rstride rgb_vga * vy (bmin window))
  /\ cols (format (cropped rgb_vga window)) = width window
  /\ rows (format (cropped rgb_vga window)) = height window.
Proof.
  pose proof (cropped_frame PixelFormat ChannelType rgb_vga window) as H.
  cbv zeta in H.
  destruct H as (Hb & _ & _ & _ & _ & _ & _ & _ & _ & _ & _ & Hexact).
  split; [exact Hb|].
  apply Hexact; vm_compute; repeat split; congruence.
Defined.

(** *** The buffer properties on the instance *)

Definition channels_of_known (f : PixelFormat) : option Z :=
  match f with
  | VW_PIXEL_UNKNOWN => None
  | _ => Some (channels_of f)
  end.

Definition bytes_of_known (c : ChannelType) : option Z :=
  match c with
  | VW_CHANNEL_UNKNOWN => None
  | _ => Some (bytes_of c)
  end.

Definition buffer_of (f : ImageFormat PixelFormat ChannelType) (d : pointer)
  : option (ImageBuffer PixelFormat ChannelType) :=
  ImageBuffer_of PixelFormat ChannelType channels_of_known bytes_of_known f d false.

Example buffer_of_rgb_vga : buffer_of (format rgb_vga) (data rgb_vga) = Some rgb_vga.
Proof. reflexivity. Qed.

Example buffer_of_unknown :
  buffer_of (mkImageFormat 640 480 1 VW_PIXEL_UNKNOWN VW_CHANNEL_UINT8) null = None.
Proof. reflexivity. Qed.

Ltac by_computation := vm_compute; repeat split; congruence.

Lemma packed_pixel_in_bounds_witness :
  ptr_block (pixel_address rgb_vga 10 20 0) = 7%N
  /\ pixel_offset PixelFormat ChannelType rgb_vga 10 20 0 = 1 * 3 * (10 + 640 * (20 + 480 * 0))
  /\ 0 <= pixel_offset PixelFormat ChannelType rgb_vga 10 20 0
  /\ pixel_offset PixelFormat ChannelType rgb_vga 10 20 0 + cstride rgb_vga
     <= byte_size PixelFormat ChannelType rgb_vga
  /\ byte_size PixelFormat ChannelType rgb_vga = 1 * 3 * 640 * 480 * 1.
Proof.
  apply (packed_pixel_in_bounds PixelFormat ChannelType channels_of_known bytes_of_known
           (format rgb_vga) (data rgb_vga) false rgb_vga 1 3 10 20 0);
    try reflexivity; by_computation.
Defined.

Lemma packed_pixels_are_distinct_witness :
  pixel_address rgb_vga 10 20 0 = pixel_address rgb_vga (5 + 5) (4 * 5) 0
  /\ 10 = 5 + 5 /\ 20 = 4 * 5 /\ 0 = 0.
Proof.
  assert (Heq : pixel_address rgb_vga 10 20 0 = pixel_address rgb_vga (5 + 5) (4 * 5) 0)
    by reflexivity.
  split; [exact Heq|].
  apply (packed_pixels_are_distinct PixelFormat ChannelType channels_of_known
           bytes_of_known (format rgb_vga) (data rgb_vga) false rgb_vga 1 3
           10 20 0 (5 + 5) (4 * 5) 0);
    try reflexivity; try exact Heq; by_computation.
Defined.

Lemma cropped_to_whole_image_witness :
  cropped rgb_vga (BBox2i_xywh 0 0 (buf_cols PixelFormat ChannelType rgb_vga)
                                   (buf_rows PixelFormat ChannelType rgb_vga))
  = rgb_vga.
Proof.
  apply (cropped_to_whole_image PixelFormat ChannelType rgb_vga); by_computation.
Defined.

Definition inner_window : BBox2i := mkBBox2i (mkVector2i 5 5) (mkVector2i 25 15).

Lemma cropped_twice_witness :
  cropped (cropped rgb_vga window) inner_window
  = cropped rgb_vga (mkBBox2i (vadd (bmin inner_window) (bmin window))
                              (vadd (bmax inner_window) (bmin window))).
Proof.
  apply (cropped_twice PixelFormat ChannelType rgb_vga window inner_window);
    unfold modest; by_computation.
Defined.

Lemma cropped_pixel_address_witness :
  pixel_address (cropped rgb_vga window) 3 4 0
  = pixel_address rgb_vga (3 + vx (bmin window)) (4 + vy (bmin window)) 0.
Proof.
  apply (cropped_pixel_address PixelFormat ChannelType rgb_vga window 3 4 0);
    by_computation.
Defined.

End Image.


(** ** The optimisation header: [levenberg_marquardt] *)

Module Optimization.
Import Int.

Section LM.

(** [double], [Vector<double>] and [Matrix<double>] with the operations the
    driver uses.  [vw/Math/Matrix.h], [Vector.h] and [LinearAlgebra.h] are
    not among the sources, and the driver is generic in the numbers: they
    are parameters.  [dlit q] is the [double] a decimal literal [q]
    denotes. *)
Variable D : Type.
Variables Vec Mat : Type.
Variable dlit : Q -> D.
Variables dadd dsub dmul ddiv : D -> D -> D.
Variables dgt dlt : D -> D -> bool.
Variable vec_empty : Vec.
Variable vec_sub : Vec -> Vec -> Vec.
Variable sum_elem_prod : Vec -> Vec -> D.
Variable transpose : Mat -> Mat.
Variable scalar_mat : D -> Mat -> Mat.
Variable mat_scalar : Mat -> D -> Mat.
Variable mat_vec : Mat -> Vec -> Vec.
Variable mat_mul : Mat -> Mat -> Mat.
Variable mat_rows : Mat -> nat.
Variable mat_get : Mat -> nat -> nat -> D.
Variable mat_set : Mat -> nat -> nat -> D -> Mat.
Variable least_squares : Mat -> Vec -> Vec.

(** [x > x] is false for every [double], NaN included. *)
Hypothesis dgt_irrefl : forall x : D, dgt x x = false.

(** [class ModelFunction]: evaluation, differencing and Jacobian. *)
Record ModelFunction : Type := mkModelFunction {
  eval : Vec -> Vec;
  diff : Vec -> Vec -> Vec;
  Jacobian : Vec -> Mat
}.

Definition ABS_TOL : D := dlit (1 # 1000).
Definition REL_TOL : D := dlit (1 # 1000).

Definition too_many : string :=
  "LM: too many inner iterations - short circuiting"%string.

(** The variables the inner [while] loop reads and writes.  [Alm],
    [delta_p], [htry] and [difftry] are written before they are read in
    every pass and are local to [inner_body].  The trace sent to
    [std::cout] is left out; what goes to [std::cerr] is kept. *)
Record Inner : Type := mkInner {
  lambda : D;
  norm_try : D;
  ptry : Vec;
  iterations : Z;
  shortCircuit : bool;
  cerr : list string
}.

(** [for (i = 0; i < Alm.rows(); i++) Alm(i,i) += Alm(i,i)*lambda + lambda;] *)
Definition damp (A : Mat) (lam : D) : Mat :=
  foldl (fun Alm i =>
           mat_set Alm i i
             (dadd (mat_get Alm i i) (dadd (dmul (mat_get Alm i i) lam) lam)))
        A (seq 0 (mat_rows A)).

Section OuterIteration.

Variable model : ModelFunction.
Variables p z : Vec.
Variable A : Mat.
Variable del_J : Vec.
Variable norm_start : D.

(** One pass through the body of [while (norm_try > norm_start)]. *)
Definition inner_body (st : Inner) : Inner :=
  let Alm := damp A (lambda st) in
  let delta_p := least_squares Alm del_J in
  let ptry' := vec_sub p delta_p in
  let htry := eval model ptry' in
  let difftry := diff model z htry in
  let norm_try' := sum_elem_prod difftry difftry in
  let lambda' :=
    if dgt norm_try' norm_start then dmul (lambda st) (dlit 10) else lambda st in
  let iterations' := to_int32 (iterations st + 1) in
  if iterations' >? 5
  then mkInner lambda' norm_start ptry' iterations' true (cerr st ++ [too_many])
  else mkInner lambda' norm_try' ptry' iterations' (shortCircuit st) (cerr st).

(** [while (norm_try > norm_start) { ... }]; [None] when the fuel runs out
    before the test fails. *)
Fixpoint inner_loop (fuel : nat) (st : Inner) : option Inner :=
  match fuel with
  | O => None
  | S fuel' =>
      if dgt (norm_try st) norm_start
      then inner_loop fuel' (inner_body st)
      else Some st
  end.

End OuterIteration.

(** The variables that live across passes of [while (!converged)]. *)
Record Outer : Type := mkOuter {
  o_p : Vec;
  o_ptry : Vec;
  o_lambda : D;
  o_norm_start : D;
  o_converged : bool;
  o_outer_iter : Z;
  o_cerr : list string
}.

(** The inner loop as one outer pass enters it: [iterations = 0] and
    [norm_try = norm_start + 1.0]. *)
Definition inner_init (o : Outer) (norm_start : D) : Inner :=
  mkInner (o_lambda o) (dadd norm_start (dlit 1)) (o_ptry o) 0 false (o_cerr o).

(** One pass through the body of [while (!converged)], with [Rinv = 10].
    Returned with the new state is the state in which the inner loop
    ended, whose [shortCircuit] is the local flag of this pass. *)
Definition outer_body (fuel : nat) (model : ModelFunction) (z : Vec) (o : Outer)
  : option (Outer * Inner) :=
  let Rinv := dlit 10 in
  let h := eval model (o_p o) in
  let e := diff model z h in
  let norm_start := sum_elem_prod e e in
  let H := Jacobian model (o_p o) in
  let del_J := mat_vec (mat_scalar (scalar_mat (dlit (-1)) (transpose H)) Rinv) e in
  let A := mat_mul (mat_scalar (transpose H) Rinv) H in
  match inner_loop model (o_p o) z A del_J norm_start fuel (inner_init o norm_start) with
  | None => None
  | Some st =>
      let converged1 :=
        if dlt (ddiv (dsub norm_start (norm_try st)) norm_start) REL_TOL
        then true else o_converged o in
      let converged2 :=
        if dlt (norm_try st) ABS_TOL then true else converged1 in
      let p' := if shortCircuit st then o_p o else ptry st in
      Some (mkOuter p' (ptry st) (ddiv (lambda st) (dlit 10)) (norm_try st)
              converged2 (to_int32 (o_outer_iter o + 1)) (cerr st), st)
  end.

(** [while (!converged) { ... }] *)
Fixpoint outer_loop (fuel : nat) (model : ModelFunction) (z : Vec) (o : Outer)
  : option Outer :=
  match fuel with
  | O => None
  | S fuel' =>
      if o_converged o then Some o
      else match outer_body fuel model z o with
           | None => None
           | Some (o', _) => outer_loop fuel' model z o'
           end
  end.

(** The state in which the outer loop is entered. *)
Definition lm_init (model : ModelFunction) (p z : Vec) : Outer :=
  let h := eval model p in
  let e := diff model z h in
  let norm_start := sum_elem_prod e e in
  mkOuter p vec_empty (dlit (1 # 10)) norm_start (dlt norm_start ABS_TOL) 0 [].

(** [void levenberg_marquardt(Vector<T>& p, Vector<T>& z, const
    ModelFunction<T>& model)]: what the caller gets back is [p], passed by
    reference; [None] when the fuel runs out. *)
Definition levenberg_marquardt (fuel : nat) (model : ModelFunction) (p z : Vec)
  : option Vec :=
  match outer_loop fuel model z (lm_init model p z) with
  | None => None
  | Some o => Some (o_p o)
  end.

(** *** Properties *)

Section InnerLoop.

Variable model : ModelFunction.
Variables p z : Vec.
Variable A : Mat.
Variable del_J : Vec.
Variable norm_start : D.

(** What holds of the inner loop's variables before and after every pass:
    the counter stays within 0..6, and it is 6 exactly in the states the
    cap has produced. *)
Definition inner_inv (st : Inner) : Prop :=
  0 <= iterations st <= 6
  /\ (iterations st = 6 ->
      norm_try st = norm_start /\ shortCircuit st = true /\ In too_many (cerr st))
  /\ (iterations st < 6 -> shortCircuit st = false).

Lemma inner_body_inv (st : Inner) :
  inner_inv st -> iterations st < 6 ->
  inner_inv (inner_body model p z A del_J norm_start st)
  /\ iterations (inner_body model p z A del_J norm_start st) = iterations st + 1.
Proof.
  intros (Hr & _ & Hsc) Hlt. unfold inner_body.
  assert (Hw : to_int32 (iterations st + 1) = iterations st + 1).
  { apply to_int32_id. unfold int32_range. lia. }
  rewrite Hw.
  destruct (iterations st + 1 >? 5) eqn:Hcap; simpl.
  - apply Z.gtb_lt in Hcap. unfold inner_inv; simpl.
    repeat split; try lia; try reflexivity.
    apply in_or_app. right. now left.
  - assert (iterations st + 1 <= 5) by (rewrite Z.gtb_ltb, Z.ltb_ge in Hcap; lia).
    unfold inner_inv; simpl. repeat split; try lia. intros _. apply Hsc. lia.
Qed.

(** From a state satisfying the invariant the loop stops after at most
    [6 - iterations] passes, whatever the model function returns. *)
Lemma inner_loop_terminates (n : nat) :
  forall st : Inner,
    inner_inv st -> 6 - iterations st <= Z.of_nat n ->
    exists st' : Inner,
      (forall fuel : nat, (n + 1 <= fuel)%nat ->
         inner_loop model p z A del_J norm_start fuel st = Some st')
      /\ inner_inv st'
      /\ dgt (norm_try st') norm_start = false
      /\ iterations st <= iterations st'.
Proof.
  induction n as [|n IH]; intros st Hinv Hn.
  - exists st. pose proof Hinv as (Hr & Hcap & Hsc).
    assert (Hsix : iterations st = 6) by lia.
    destruct (Hcap Hsix) as (Hnt & _).
    assert (Htest : dgt (norm_try st) norm_start = false)
      by (rewrite Hnt; apply dgt_irrefl).
    split; [|split; [exact Hinv|split; [exact Htest|lia]]].
    intros [|fuel] Hf; [lia|]. simpl. now rewrite Htest.
  - destruct (dgt (norm_try st) norm_start) eqn:Htest.
    + assert (Hlt : iterations st < 6).
      { destruct Hinv as (Hr & Hcap & _).
        destruct (Z.eq_dec (iterations st) 6) as [Hsix|]; [|lia].
        destruct (Hcap Hsix) as (Hnt & _).
        rewrite Hnt, dgt_irrefl in Htest. discriminate. }
      destruct (inner_body_inv st Hinv Hlt) as (Hinv' & Hit).
      destruct (IH _ Hinv' ltac:(lia)) as (st' & Hrun & Hinv'' & Hstop & Hle).
      exists st'. split; [|split; [exact Hinv''|split; [exact Hstop|lia]]].
      intros [|fuel] Hf; [lia|]. simpl. rewrite Htest. apply Hrun. lia.
    + exists st. split; [|split; [exact Hinv|split; [exact Htest|lia]]].
      intros [|fuel] Hf; [lia|]. simpl. now rewrite Htest.
Qed.

End InnerLoop.

Lemma inner_init_inv (o : Outer) (norm_start : D) :
  inner_inv norm_start (inner_init o norm_start).
Proof. unfold inner_inv, inner_init; simpl. repeat split; lia. Qed.

(** C6 (as amended).  In every pass of the outer loop the step-acceptance
    loop ends after at most six passes of its body: with fuel 7 or more,
    [outer_body] returns.  When the cap was reached, the diagnostic has been
    written to [std::cerr], the loop was left with [norm_try = norm_start],
    and the trial parameters are dropped: [p] keeps its value.  Otherwise
    [p] becomes the accepted trial point. *)
Theorem inner_loop_capped (model : ModelFunction) (z : Vec) (o : Outer) :
  exists (o' : Outer) (st : Inner),
    (forall fuel : nat, (7 <= fuel)%nat ->
       outer_body fuel model z o = Some (o', st))
    /\ 0 <= iterations st <= 6
    /\ (shortCircuit st = true ->
        iterations st = 6
        /\ norm_try st = sum_elem_prod (diff model z (eval model (o_p o)))
                                       (diff model z (eval model (o_p o)))
        /\ In too_many (o_cerr o')
        /\ o_p o' = o_p o)
    /\ (shortCircuit st = false -> iterations st < 6 /\ o_p o' = ptry st).
Proof.
  set (norm_start := sum_elem_prod (diff model z (eval model (o_p o)))
                                   (diff model z (eval model (o_p o)))).
  set (H := Jacobian model (o_p o)).
  set (del_J := mat_vec (mat_scalar (scalar_mat (dlit (-1)) (transpose H)) (dlit 10))
                        (diff model z (eval model (o_p o)))).
  set (A := mat_mul (mat_scalar (transpose H) (dlit 10)) H).
  destruct (inner_loop_terminates model (o_p o) z A del_J norm_start 6
              (inner_init o norm_start) (inner_init_inv o norm_start))
    as (st & Hrun & (Hr & Hcap & Hsc) & Hstop & _).
  { simpl. lia. }
  eexists. exists st. split.
  - intros fuel Hf. unfold outer_body.
    fold norm_start. fold H. fold del_J. fold A.
    rewrite (Hrun fuel) by lia. reflexivity.
  - split; [exact Hr|]. split.
    + intros Hs. simpl. rewrite Hs.
      assert (Hsix : iterations st = 6).
      { destruct (Z.eq_dec (iterations st) 6) as [|Hne]; [assumption|].
        rewrite Hsc in Hs by lia. discriminate. }
      destruct (Hcap Hsix) as (Hnt & _ & Hin). auto.
    + intros Hs. simpl. rewrite Hs. split; [|reflexivity].
      destruct (Z.eq_dec (iterations st) 6) as [Hsix|Hne]; [|lia].
      destruct (Hcap Hsix) as (_ & Htrue & _). congruence.
Qed.

(** *** Further properties of the driver *)

(** The squared residual at a parameter vector, as the driver computes it
    before the outer loop and at the top of every outer pass. *)
Definition residual (model : ModelFunction) (z p : Vec) : D :=
  sum_elem_prod (diff model z (eval model p)) (diff model z (eval model p)).

Section Passes.

Variable model : ModelFunction.
Variables p z : Vec.
Variable A : Mat.
Variable del_J : Vec.
Variable norm_start : D.

(** The invariant of the inner loop holds wherever the loop stops, for
    any fuel. *)
Lemma inner_loop_keeps_inv (fuel : nat) :
  forall st st' : Inner,
    inner_inv norm_start st ->
    inner_loop model p z A del_J norm_start fuel st = Some st' ->
    inner_inv norm_start st' /\ dgt (norm_try st') norm_start = false.
Proof.
  induction fuel as [|fuel IH]; intros st st' Hinv Hrun; [discriminate|].
  simpl in Hrun. destruct (dgt (norm_try st) norm_start) eqn:Htest.
  - assert (Hlt : iterations st < 6).
    { destruct Hinv as (Hr & Hcap & _).
      destruct (Z.eq_dec (iterations st) 6) as [Hsix|]; [|lia].
      destruct (Hcap Hsix) as (Hnt & _).
      rewrite Hnt, dgt_irrefl in Htest. discriminate. }
    destruct (inner_body_inv model p z A del_J norm_start st Hinv Hlt) as (Hinv' & _).
    exact (IH _ _ Hinv' Hrun).
  - injection Hrun as <-. auto.
Qed.

(** After a pass of the inner loop's body either the cap was reached or
    [norm_try] is the residual at the trial point. *)
Lemma inner_body_trial (st : Inner) :
  let st' := inner_body model p z A del_J norm_start st in
  shortCircuit st' = true \/ norm_try st' = residual model z (ptry st').
Proof.
  cbv zeta. unfold inner_body.
  destruct (to_int32 (iterations st + 1) >? 5); simpl; [left|right]; reflexivity.
Qed.

Lemma inner_loop_trial (fuel : nat) :
  forall st st' : Inner,
    inner_loop model p z A del_J norm_start fuel st = Some st' ->
    st' = st
    \/ shortCircuit st' = true \/ norm_try st' = residual model z (ptry st').
Proof.
  induction fuel as [|fuel IH]; intros st st' Hrun; [discriminate|].
  simpl in Hrun. destruct (dgt (norm_try st) norm_start) eqn:Htest.
  - right. destruct (IH _ _ Hrun) as [-> | Ht]; [apply inner_body_trial | exact Ht].
  - injection Hrun as <-. now left.
Qed.

End Passes.

(** X6.  An outer pass that tries a step never makes the residual larger: the
    new [p] is the old one, or a trial point whose residual the
    step-acceptance test has found not greater than the old residual. *)
Theorem outer_pass_descends (fuel : nat) (model : ModelFunction) (z : Vec)
    (o o' : Outer) (st : Inner) :
  dgt (dadd (residual model z (o_p o)) (dlit 1)) (residual model z (o_p o)) = true ->
  outer_body fuel model z o = Some (o', st) ->
  dgt (residual model z (o_p o')) (residual model z (o_p o)) = false.
Proof.
  intros Hentry Hrun. unfold outer_body in Hrun. fold (residual model z (o_p o)) in Hrun.
  set (ns := residual model z (o_p o)) in *.
  match type of Hrun with
  | context [inner_loop ?m ?pp ?zz ?AA ?dJ ns fuel ?i] =>
      destruct (inner_loop m pp zz AA dJ ns fuel i) as [st0|] eqn:Hin; [|discriminate];
      pose proof (inner_loop_keeps_inv m pp zz AA dJ ns fuel _ _
                    (inner_init_inv o ns) Hin) as (_ & Hstop);
      pose proof (inner_loop_trial m pp zz AA dJ ns fuel _ _ Hin) as Htrial
  end.
  injection Hrun as <- <-. simpl.
  destruct Htrial as [-> | [Hsc | Hres]].
  - unfold inner_init in Hstop; simpl in Hstop. congruence.
  - rewrite Hsc. apply dgt_irrefl.
  - destruct (shortCircuit st0); [apply dgt_irrefl|]. now rewrite <- Hres.
Qed.

(** X7.  When [norm_start + 1.0 > norm_start] is false (a residual that is NaN,
    infinite or too large for 1.0 to count) the inner loop is not entered,
    and the pass assigns to [p] the trial vector of the pass before; in the
    first pass that is the empty vector [ptry] was declared as. *)
Theorem outer_pass_without_trial (fuel : nat) (model : ModelFunction) (z : Vec)
    (o : Outer) :
  dgt (dadd (residual model z (o_p o)) (dlit 1)) (residual model z (o_p o)) = false ->
  exists (o' : Outer) (st : Inner),
    outer_body (S fuel) model z o = Some (o', st)
    /\ iterations st = 0 /\ shortCircuit st = false
    /\ o_p o' = o_ptry o
    /\ (forall p : Vec, o = lm_init model p z -> o_p o' = vec_empty).
Proof.
  intros Hentry. unfold outer_body. fold (residual model z (o_p o)).
  simpl. rewrite Hentry. eexists. eexists. split; [reflexivity|]. simpl.
  repeat split. intros p ->. reflexivity.
Qed.

(** X8.  A start whose residual is already below [ABS_TOL] is returned as it
    is, without any pass. *)
Theorem good_start_is_returned (fuel : nat) (model : ModelFunction) (p z : Vec) :
  dlt (residual model z p) ABS_TOL = true ->
  levenberg_marquardt (S fuel) model p z = Some p.
Proof.
  intros Htol. unfold levenberg_marquardt, lm_init. simpl.
  fold (residual model z p). rewrite Htol. reflexivity.
Qed.

(** X9.  A pass that reaches the cap is the last one: where a relative change
    of zero passes the relative test, or the residual passes the absolute
    one, the pass sets [converged] and keeps [p], so the driver returns that
    [p] without another pass. *)
Theorem capped_pass_is_last (fuel fuel' : nat) (model : ModelFunction) (z : Vec)
    (o o' : Outer) (st : Inner) :
  dlt (ddiv (dsub (residual model z (o_p o)) (residual model z (o_p o)))
            (residual model z (o_p o))) REL_TOL = true
  \/ dlt (residual model z (o_p o)) ABS_TOL = true ->
  outer_body fuel model z o = Some (o', st) ->
  shortCircuit st = true ->
  o_converged o' = true /\ o_p o' = o_p o
  /\ outer_loop (S fuel') model z o' = Some o'.
Proof.
  intros Htol Hrun Hsc. unfold outer_body in Hrun.
  fold (residual model z (o_p o)) in Hrun.
  set (ns := residual model z (o_p o)) in *.
  match type of Hrun with
  | context [inner_loop ?m ?pp ?zz ?AA ?dJ ns fuel ?i] =>
      destruct (inner_loop m pp zz AA dJ ns fuel i) as [st0|] eqn:Hin; [|discriminate];
      pose proof (inner_loop_keeps_inv m pp zz AA dJ ns fuel _ _
                    (inner_init_inv o ns) Hin) as ((Hr & Hcap & Hlow) & _)
  end.
  injection Hrun as <- <-.
  assert (Hsix : iterations st0 = 6).
  { destruct (Z.eq_dec (iterations st0) 6) as [|Hne]; [assumption|].
    rewrite Hlow in Hsc by lia. discriminate. }
  destruct (Hcap Hsix) as (Hnt & _).
  assert (Hconv : (if dlt (norm_try st0) ABS_TOL then true
                   else if dlt (ddiv (dsub ns (norm_try st0)) ns) REL_TOL
                        then true else o_converged o) = true).
  { rewrite Hnt. destruct Htol as [-> | ->]; [|reflexivity].
    now destruct (dlt ns ABS_TOL). }
  simpl. rewrite Hsc, Hconv. repeat split.
Qed.

End LM.

Arguments mkModelFunction {Vec Mat}.
Arguments eval {Vec Mat}.
Arguments diff {Vec Mat}.
Arguments Jacobian {Vec Mat}.
Arguments lambda {D Vec}.
Arguments norm_try {D Vec}.
Arguments ptry {D Vec}.
Arguments iterations {D Vec}.
Arguments shortCircuit {D Vec}.
Arguments cerr {D Vec}.
Arguments o_p {D Vec}.
Arguments o_ptry {D Vec}.
Arguments o_lambda {D Vec}.
Arguments o_norm_start {D Vec}.
Arguments o_converged {D Vec}.
Arguments o_outer_iter {D Vec}.
Arguments o_cerr {D Vec}.

(** *** An instance in exact arithmetic

    The driver over the rationals with one parameter and one observation:
    vectors and matrices are single numbers and [least_squares A b] solves
    [A * x = b]. *)

Definition Qgt_bool (a b : Q) : bool := negb (Qle_bool a b).
Definition Qlt_bool (a b : Q) : bool := negb (Qle_bool b a).

Lemma Qgt_bool_irrefl (x : Q) : Qgt_bool x x = false.
Proof.
  unfold Qgt_bool. apply negb_false_iff, Qle_bool_iff, Qle_refl.
Qed.

Definition QModel : Type := ModelFunction Q Q.

Definition Q_outer_body (fuel : nat) (model : QModel) (z : Q) (o : Outer Q Q)
  : option (Outer Q Q * Inner Q Q) :=
  outer_body Q Q Q (fun q => q) Qplus Qminus Qmult Qdiv Qgt_bool Qlt_bool
    Qminus Qmult (fun m => m) Qmult Qmult Qmult Qmult
    (fun _ => 1%nat) (fun m _ _ => m) (fun _ _ _ v => v)
    (fun A b => Qdiv b A) fuel model z o.

Definition Q_lm_init (model : QModel) (p z : Q) : Outer Q Q :=
  lm_init Q Q Q (fun q => q) Qlt_bool 0%Q Qmult model p z.

Definition Q_levenberg_marquardt (fuel : nat) (model : QModel) (p z : Q)
  : option Q :=
  levenberg_marquardt Q Q Q (fun q => q) Qplus Qminus Qmult Qdiv Qgt_bool Qlt_bool
    0%Q Qminus Qmult (fun m => m) Qmult Qmult Qmult Qmult
    (fun _ => 1%nat) (fun m _ _ => m) (fun _ _ _ v => v)
    (fun A b => Qdiv b A) fuel model p z.

(** A model function with a spike: 0 at the parameter 0 and 10 everywhere
    else, with a Jacobian that ignores the spike.  Every trial step away
    from 0 is worse than the start. *)
Definition spike : QModel :=
  mkModelFunction
    (fun p => if Qeq_bool p 0 then 0%Q else 10%Q)
    (fun a b => Qminus a b)
    (fun _ => 1%Q).

(** A well-behaved model function: the identity. *)
Definition identity_model : QModel :=
  mkModelFunction (fun p => p) (fun a b => Qminus a b) (fun _ => 1%Q).

Example identity_model_run :
  exists p : Q,
    Q_levenberg_marquardt 8 identity_model 0%Q 1%Q = Some p
    /\ Qle_bool (99 # 100) p = true /\ Qle_bool p 1%Q = true.
Proof. eexists. split; [vm_compute; reflexivity | split; reflexivity]. Qed.

Lemma inner_loop_capped_witness :
  exists (o' : Outer Q Q) (st : Inner Q Q),
    (forall fuel : nat, (7 <= fuel)%nat ->
       Q_outer_body fuel spike 1%Q (Q_lm_init spike 0%Q 1%Q) = Some (o', st))
    /\ 0 <= iterations st <= 6
    /\ (shortCircuit st = true ->
        iterations st = 6
        /\ norm_try st
           = Qmult (diff spike 1%Q (eval spike (o_p (Q_lm_init spike 0%Q 1%Q))))
                   (diff spike 1%Q (eval spike (o_p (Q_lm_init spike 0%Q 1%Q))))
        /\ In too_many (o_cerr o')
        /\ o_p o' = o_p (Q_lm_init spike 0%Q 1%Q))
    /\ (shortCircuit st = false ->
        iterations st < 6 /\ o_p o' = ptry st).
Proof.
  unfold Q_outer_body.
  apply (inner_loop_capped Q Q Q (fun q => q) Qplus Qminus Qmult Qdiv
           Qgt_bool Qlt_bool Qminus Qmult (fun m => m) Qmult Qmult Qmult Qmult
           (fun _ => 1%nat) (fun m _ _ => m) (fun _ _ _ v => v)
           (fun A b => Qdiv b A) Qgt_bool_irrefl spike 1%Q (Q_lm_init spike 0%Q 1%Q)).
Defined.

(** In exact arithmetic every pass that reaches the cap sets [converged]:
    [norm_try] has been reset to [norm_start], so the relative change is
    0, below [REL_TOL]. *)
Lemma Q_no_change_is_below_tolerance (x : Q) :
  Qlt_bool (Qdiv (Qminus x x) x) (1 # 1000) = true.
Proof.
  unfold Qlt_bool. apply negb_true_iff.
  destruct (Qle_bool (1 # 1000) (Qdiv (Qminus x x) x)) eqn:Hle; [|reflexivity].
  apply Qle_bool_iff in Hle.
  assert (Hz : Qeq (Qdiv (Qminus x x) x) 0).
  { unfold Qdiv, Qminus. rewrite Qplus_opp_r. apply Qmult_0_l. }
  rewrite Hz in Hle. exfalso. apply Hle. reflexivity.
Qed.

Lemma Q_cap_sets_converged (fuel : nat) (model : QModel) (z : Q)
    (o o' : Outer Q Q) (st : Inner Q Q) :
  (7 <= fuel)%nat ->
  Q_outer_body fuel model z o = Some (o', st) ->
  shortCircuit st = true ->
  o_converged o' = true /\ o_p o' = o_p o.
Proof.
  intros Hf Hrun Hsc. unfold Q_outer_body, outer_body in Hrun.
  match type of Hrun with
  | context [inner_loop ?D ?V ?M ?dl ?da ?dm ?dg ?vs ?sp ?mr ?mg ?ms ?ls
                        ?mo ?p ?zz ?A ?dJ ?ns ?f ?i] =>
      destruct (inner_loop_terminates D V M dl da dm dg vs sp mr mg ms ls
                  Qgt_bool_irrefl mo p zz A dJ ns 6 i
                  ltac:(apply inner_init_inv) ltac:(simpl; lia))
        as (st' & Hst' & (Hr & Hcap & Hlow) & _)
  end.
  rewrite Hst' in Hrun by lia.
  injection Hrun as <- <-. simpl.
  assert (Hsix : iterations st' = 6).
  { destruct (Z.eq_dec (iterations st') 6) as [|Hne]; [assumption|].
    rewrite Hlow in Hsc by lia. discriminate. }
  destruct (Hcap Hsix) as (Hnt & _). rewrite Hsc, Hnt.
  rewrite Q_no_change_is_below_tolerance.
  split; [|reflexivity]. now destruct (Qlt_bool _ _).
Qed.

(** C6 as stated fails.  With [spike], start 0 and observation 1 the cap is
    reached in the first outer pass; the relative-change test then sees no
    change and sets [converged], and the driver returns to its caller with
    [p] as it was: the run ends as a converged one, and [p] is all the
    caller gets. *)
Lemma cap_ends_as_converged :
  exists (o' : Outer Q Q) (st : Inner Q Q),
    Q_outer_body 7 spike 1%Q (Q_lm_init spike 0%Q 1%Q) = Some (o', st)
    /\ shortCircuit st = true
    /\ iterations st = 6
    /\ o_converged o' = true
    /\ o_cerr o' = [too_many]
    /\ Q_levenberg_marquardt 8 spike 0%Q 1%Q = Some 0%Q.
Proof.
  eexists. eexists. split; [vm_compute; reflexivity|].
  repeat split; vm_compute; reflexivity.
Qed.

(** *** The further properties on the instance *)

Definition Q_residual (model : QModel) (z p : Q) : Q :=
  residual Q Q Q Qmult model z p.

Definition Q_outer_loop (fuel : nat) (model : QModel) (z : Q) (o : Outer Q Q)
  : option (Outer Q Q) :=
  outer_loop Q Q Q (fun q => q) Qplus Qminus Qmult Qdiv Qgt_bool Qlt_bool
    Qminus Qmult (fun m => m) Qmult Qmult Qmult Qmult
    (fun _ => 1%nat) (fun m _ _ => m) (fun _ _ _ v => v)
    (fun A b => Qdiv b A) fuel model z o.

Lemma outer_pass_descends_witness :
  exists (o' : Outer Q Q) (st : Inner Q Q),
    Q_outer_body 7 identity_model 1%Q (Q_lm_init identity_model 0%Q 1%Q) = Some (o', st)
    /\ Qgt_bool (Q_residual identity_model 1%Q (o_p o'))
                (Q_residual identity_model 1%Q (o_p (Q_lm_init identity_model 0%Q 1%Q)))
       = false.
Proof.
  destruct (Q_outer_body 7 identity_model 1%Q (Q_lm_init identity_model 0%Q 1%Q))
    as [[o' st]|] eqn:Hrun; [|vm_compute in Hrun; discriminate].
  exists o', st. split; [reflexivity|].
  apply (outer_pass_descends Q Q Q (fun q => q) Qplus Qminus Qmult Qdiv
           Qgt_bool Qlt_bool Qminus Qmult (fun m => m) Qmult Qmult Qmult Qmult
           (fun _ => 1%nat) (fun m _ _ => m) (fun _ _ _ v => v)
           (fun A b => Qdiv b A) Qgt_bool_irrefl 7 identity_model 1%Q
           (Q_lm_init identity_model 0%Q 1%Q) o' st);
    [vm_compute; reflexivity | exact Hrun].
Defined.

(** An addition in which 1000 and more absorb what is added, as large
    [double]s absorb 1.0. *)
Definition absorbing_add (a b : Q) : Q :=
  if Qle_bool 1000 a then a else Qplus a b.

(** A model function that is 0 everywhere. *)
Definition zero_model : QModel :=
  mkModelFunction (fun _ => 0%Q) (fun a b => Qminus a b) (fun _ => 1%Q).

Lemma outer_pass_without_trial_witness :
  exists (o' : Outer Q Q) (st : Inner Q Q),
    outer_body Q Q Q (fun q => q) absorbing_add Qminus Qmult Qdiv Qgt_bool Qlt_bool
      Qminus Qmult (fun m => m) Qmult Qmult Qmult Qmult
      (fun _ => 1%nat) (fun m _ _ => m) (fun _ _ _ v => v)
      (fun A b => Qdiv b A) 1 zero_model 100%Q (Q_lm_init zero_model 5%Q 100%Q)
    = Some (o', st)
    /\ iterations st = 0 /\ shortCircuit st = false
    /\ o_p o' = o_ptry (Q_lm_init zero_model 5%Q 100%Q)
    /\ (forall p : Q, Q_lm_init zero_model 5%Q 100%Q = Q_lm_init zero_model p 100%Q ->
        o_p o' = 0%Q).
Proof.
  apply (outer_pass_without_trial Q Q Q (fun q => q) absorbing_add Qminus Qmult Qdiv
           Qgt_bool Qlt_bool 0%Q Qminus Qmult (fun m => m) Qmult Qmult Qmult Qmult
           (fun _ => 1%nat) (fun m _ _ => m) (fun _ _ _ v => v)
           (fun A b => Qdiv b A) 0 zero_model 100%Q (Q_lm_init zero_model 5%Q 100%Q)).
  vm_compute. reflexivity.
Defined.

Lemma good_start_is_returned_witness :
  Qlt_bool (Q_residual identity_model 1%Q 1%Q) (1 # 1000) = true
  /\ Q_levenberg_marquardt 1 identity_model 1%Q 1%Q = Some 1%Q.
Proof.
  assert (Htol : Qlt_bool (Q_residual identity_model 1%Q 1%Q) (1 # 1000) = true)
    by (vm_compute; reflexivity).
  split; [exact Htol|].
  exact (good_start_is_returned Q Q Q (fun q => q) Qplus Qminus Qmult Qdiv
           Qgt_bool Qlt_bool 0%Q Qminus Qmult (fun m => m) Qmult Qmult Qmult Qmult
           (fun _ => 1%nat) (fun m _ _ => m) (fun _ _ _ v => v)
           (fun A b => Qdiv b A) 0 identity_model 1%Q 1%Q Htol).
Defined.

Lemma capped_pass_is_last_witness :
  exists (o' : Outer Q Q) (st : Inner Q Q),
    Q_outer_body 7 spike 1%Q (Q_lm_init spike 0%Q 1%Q) = Some (o', st)
    /\ shortCircuit st = true
    /\ o_converged o' = true
    /\ o_p o' = o_p (Q_lm_init spike 0%Q 1%Q)
    /\ Q_outer_loop 1 spike 1%Q o' = Some o'.
Proof.
  destruct (Q_outer_body 7 spike 1%Q (Q_lm_init spike 0%Q 1%Q))
    as [[o' st]|] eqn:Hrun; [|vm_compute in Hrun; discriminate].
  assert (Hsc : shortCircuit st = true).
  { pose proof Hrun as Hrun'. vm_compute in Hrun'.
    injection Hrun' as _ Hst. rewrite <- Hst. reflexivity. }
  exists o', st. split; [reflexivity|]. split; [exact Hsc|].
  apply (capped_pass_is_last Q Q Q (fun q => q) Qplus Qminus Qmult Qdiv
           Qgt_bool Qlt_bool Qminus Qmult (fun m => m) Qmult Qmult Qmult Qmult
           (fun _ => 1%nat) (fun m _ _ => m) (fun _ _ _ v => v)
           (fun A b => Qdiv b A) Qgt_bool_irrefl 7 0 spike 1%Q
           (Q_lm_init spike 0%Q 1%Q) o' st);
    [left; apply Q_no_change_is_below_tolerance | exact Hrun | exact Hsc].
Defined.

End Optimization.


(** ** Exceptions and logging

    [vw/Core/Exception.h] and [vw/Core/Debugging.h] are not among the
    sources.  [vw_throw] raises its argument; [VW_ASSERT(cond, e)] raises
    [e] when [cond] is false; [vw_out(level, namespace) << ...] appends one
    line to the log (tabs and line ends are left out of the logged texts;
    the texts of exceptions are the source's literals, line feed included). *)

Module Core.
Import Math.

Inductive Exception : Type :=
| ArgumentErr (msg : string)
| NoImplErr (msg : string).

Inductive Result (A : Type) : Type :=
| Ok (a : A)
| Throw (e : Exception).

Arguments Ok {A} a.
Arguments Throw {A} e.

(** The line feed that ends some of the exception texts. *)
Definition line_feed : string := String (Ascii.ascii_of_nat 10) EmptyString.

Definition vw_throw {A : Type} (e : Exception) : Result A := Throw e.

Definition VW_ASSERT (cond : bool) (e : Exception) : Result unit :=
  if cond then Ok tt else vw_throw e.

Definition rbind {A B : Type} (r : Result A) (k : A -> Result B) : Result B :=
  match r with
  | Ok a => k a
  | Throw e => Throw e
  end.

Inductive MessageLevel : Type := InfoMessage | DebugMessage.

(** What [operator<<] was given: text, or a box to be printed. *)
Inductive LogItem : Type :=
| LogText (s : string)
| LogBBox (b : BBox2i).

Record LogLine : Type := mkLogLine {
  log_level : MessageLevel;
  log_namespace : string;
  log_items : list LogItem
}.

Definition Log : Type := list LogLine.

(** Code that writes to the log. *)
Definition Logged (A : Type) : Type := Log -> A * Log.

Definition ret {A : Type} (a : A) : Logged A := fun l => (a, l).

Definition bind {A B : Type} (m : Logged A) (k : A -> Logged B) : Logged B :=
  fun l => let (a, l') := m l in k a l'.

Definition vw_out (level : MessageLevel) (ns : string) (items : list LogItem)
  : Logged unit :=
  fun l => (tt, l ++ [mkLogLine level ns items]).

End Core.

(** ** In-memory images

    [ImageView<T>] as the rows of its single plane.  [iv_at] is pixel
    access, [None] outside the stored pixels. *)

Module ImageViews.

Record ImageView (T : Type) : Type := mkImageView {
  iv_cols : nat;
  iv_rows : nat;
  iv_data : list (list T)
}.

Arguments mkImageView {T}.
Arguments iv_cols {T}.
Arguments iv_rows {T}.
Arguments iv_data {T}.

Section Pixels.

Context {T : Type}.

Definition iv_at (img : ImageView T) (u v : nat) : option T :=
  match iv_data img !! v with
  | Some row => row !! u
  | None => None
  end.

(** Pixel access with [int32] coordinates. *)
Definition iv_atZ (img : ImageView T) (u v : Z) : option T :=
  if (0 <=? u) && (0 <=? v) then iv_at img (Z.to_nat u) (Z.to_nat v) else None.

(** [img(u,v) = x] *)
Definition iv_set (img : ImageView T) (u v : nat) (x : T) : ImageView T :=
  mkImageView (iv_cols img) (iv_rows img)
    (alter (fun row => <[u := x]> row) v (iv_data img)).

(** Rasterization of a [w] by [h] view whose pixel (i, j) is [f i j], row
    by row.  An extent that is not positive leaves no pixel to write. *)
Definition materialize (f : Z -> Z -> T) (w h : Z) : ImageView T :=
  mkImageView (Z.to_nat w) (Z.to_nat h)
    (map (fun j => map (fun i => f (Z.of_nat i) (Z.of_nat j)) (seq 0 (Z.to_nat w)))
         (seq 0 (Z.to_nat h))).

Lemma iv_at_set (img : ImageView T) (u v : nat) (x px : T) (u' v' : nat) :
  iv_at img u v = Some px ->
  iv_at (iv_set img u v x) u' v'
  = if decide (u' = u /\ v' = v) then Some x else iv_at img u' v'.
Proof.
  unfold iv_at, iv_set; simpl. intros Hat.
  destruct (iv_data img !! v) as [row|] eqn:Hrow; [|discriminate].
  destruct (decide (v' = v)) as [->|Hv].
  - rewrite list_lookup_alter_eq, Hrow; simpl.
    destruct (decide (u' = u)) as [->|Hu].
    + rewrite decide_True by auto.
      apply list_lookup_insert_eq. eapply lookup_lt_Some; eauto.
    + rewrite decide_False by tauto.
      rewrite list_lookup_insert_ne by auto. reflexivity.
  - rewrite decide_False by tauto.
    rewrite list_lookup_alter_ne by auto. reflexivity.
Qed.

Lemma iv_at_materialize (f : Z -> Z -> T) (w h : Z) (u v : nat) :
  (u < Z.to_nat w)%nat -> (v < Z.to_nat h)%nat ->
  iv_at (materialize f w h) u v = Some (f (Z.of_nat u) (Z.of_nat v)).
Proof.
  intros Hu Hv. unfold iv_at, materialize; simpl.
  rewrite list_lookup_fmap, lookup_seq_lt by assumption; simpl.
  rewrite list_lookup_fmap, lookup_seq_lt by assumption; simpl.
  reflexivity.
Qed.

Lemma iv_atZ_materialize (f : Z -> Z -> T) (w h : Z) (i j : Z) :
  0 <= i < w -> 0 <= j < h ->
  iv_atZ (materialize f w h) i j = Some (f i j).
Proof.
  intros Hi Hj. unfold iv_atZ.
  replace (0 <=? i) with true by (symmetry; apply Z.leb_le; lia).
  replace (0 <=? j) with true by (symmetry; apply Z.leb_le; lia).
  simpl. rewrite iv_at_materialize by lia.
  now rewrite !Z2Nat.id by lia.
Qed.

End Pixels.

End ImageViews.


(** ** [vw/Stereo/CorrelatorView.h] *)

Module Stereo.
Import Int Math Core ImageViews.

Section CorrelatorView.

(** The pixel type of the two source images with its default value
    [PixelT()], [float] with the addition and the conversion from [int32]
    that [+=] performs, the [float] a decimal literal denotes, [double],
    and the type of the preprocessing functor. *)
Variable PixelT : Type.
Variable pixel_default : PixelT.
Variable float : Type.
Variable fadd : float -> float -> float.
Variable float_of_int32 : Z -> float.
Variable flit : Q -> float.
Variable double : Type.
Variable PreProcFuncT : Type.

(** A source image as the view sees it through [ImageViewRef<PixelT>]:
    its extent, its channel and plane counts and its pixels. *)
Record ImageViewRef : Type := mkImageViewRef {
  ref_cols : Z;
  ref_rows : Z;
  ref_planes : Z;
  ref_channels : Z;
  ref_pixel : Z -> Z -> PixelT
}.

Definition in_bounds (img : ImageViewRef) (i j : Z) : bool :=
  (i >=? 0) && (j >=? 0) && (i <? ref_cols img) && (j <? ref_rows img).

(** A read of the source image itself is defined inside its extent only. *)
Definition view_read (img : ImageViewRef) (i j : Z) : option PixelT :=
  if in_bounds img i j then Some (ref_pixel img i j) else None.

(** Modelled from the spec: [edge_extend] removes the domain bounds; reads
    outside the parent's extent are satisfied by the policy instead of
    failing.  The policy here is [ZeroEdgeExtension], which yields the
    default pixel.  ([vw/Image/EdgeExtension.h] is not among the sources.) *)
Definition edge_extend_zero (img : ImageViewRef) (i j : Z) : PixelT :=
  if in_bounds img i j then ref_pixel img i j else pixel_default.

(** Modelled from the spec: [crop] offsets the coordinate domain; pixel
    (i, j) of the crop is the parent's pixel at the box's min corner plus
    (i, j).  ([vw/Image/Manipulation.h] is not among the sources.) *)
Definition crop_pixel {T : Type} (f : Z -> Z -> T) (bbox : BBox2i) (i j : Z) : T :=
  f (to_int32 (vx (bmin bbox) + i)) (to_int32 (vy (bmin bbox) + j)).

(** [ImageView<PixelT> img = crop(edge_extend(src, ZeroEdgeExtension()), bbox)] *)
Definition crop_edge_extended (src : ImageViewRef) (bbox : BBox2i) : ImageView PixelT :=
  materialize (crop_pixel (edge_extend_zero src) bbox) (width bbox) (height bbox).

(** [PixelDisparity<float>] *)
Record PixelDisparity : Type := mkPixelDisparity {
  h : float;
  v : float;
  missing : bool
}.

(** Modelled from the spec: [CropView<ImageView<pixel_type> >], a crop
    kept as a view: the child with the offset and the extent of the crop
    box.  Pixel (i, j) of the crop is pixel (ci + i, cj + j) of the child. *)
Record CropView : Type := mkCropView {
  crop_child : ImageView PixelDisparity;
  crop_ci : Z;
  crop_cj : Z;
  crop_di : Z;
  crop_dj : Z
}.

Definition CropView_new (child : ImageView PixelDisparity) (bbox : BBox2i) : CropView :=
  mkCropView child (vx (bmin bbox)) (vy (bmin bbox)) (width bbox) (height bbox).

Definition crop_cols (c : CropView) : Z := crop_di c.
Definition crop_rows (c : CropView) : Z := crop_dj c.

Definition crop_at (c : CropView) (i j : Z) : option PixelDisparity :=
  iv_atZ (crop_child c) (to_int32 (crop_ci c + i)) (to_int32 (crop_cj c + j)).

(** [BBox2(minx, miny, width, height)], a box of [double]s, here holding
    integers, which [double] represents exactly. *)
Definition BBox2_xywh (minx miny w h : Z) : BBox2i :=
  mkBBox2i (mkVector2i minx miny) (mkVector2i (minx + w) (miny + h)).

(** The settings of a [PyramidCorrelator]: the arguments of its
    constructor and the debug prefix. *)
Record PyramidCorrelator : Type := mkPyramidCorrelator {
  pc_search_range : BBox2i;
  pc_kernel_size : Vector2i;
  pc_cross_corr_threshold : float;
  pc_corr_score_threshold : float;
  pc_do_h_subpixel : bool;
  pc_do_v_subpixel : bool;
  pc_do_affine_subpixel : bool;
  pc_debug_prefix : string
}.

Definition pc_set_debug_mode (c : PyramidCorrelator) (prefix : string) : PyramidCorrelator :=
  mkPyramidCorrelator (pc_search_range c) (pc_kernel_size c)
    (pc_cross_corr_threshold c) (pc_corr_score_threshold c)
    (pc_do_h_subpixel c) (pc_do_v_subpixel c) (pc_do_affine_subpixel c) prefix.

(** Modelled from the spec: the pyramid correlator is a pure algorithm
    that, given two concrete tiles, a search range, a kernel size,
    thresholds and subpixel flags, returns a disparity tile.
    ([vw/Stereo/PyramidCorrelator.h] is not among the sources, so the
    algorithm is a parameter.) *)
Variable correlate :
  PyramidCorrelator -> ImageView PixelT -> ImageView PixelT -> PreProcFuncT ->
  ImageView PixelDisparity.

(** [class CorrelatorView] *)
Record CorrelatorView : Type := mkCorrelatorView {
  m_left_image : ImageViewRef;
  m_right_image : ImageViewRef;
  m_preproc_func : PreProcFuncT;
  m_search_range : BBox2i;
  m_kernel_size : Vector2i;
  m_do_h_subpixel : bool;
  m_do_v_subpixel : bool;
  m_do_affine_subpixel : bool;
  m_cross_corr_threshold : float;
  m_corr_score_threshold : float;
  m_debug_prefix : string
}.

Definition dimensions_msg : string :=
  ("CorrelatorView::CorrelatorView(): input image dimensions do not agree."
   +:+ line_feed)%string.
Definition channels_msg : string :=
  ("CorrelatorView::CorrelatorView(): multi-channel, multi-plane images not supported."
   +:+ line_feed)%string.
Definition noimpl_msg : string :=
  "CorrelatorView::operator()(double i, double j, int32 p) has not been implemented."%string.

(** [CorrelatorView::CorrelatorView(left_image, right_image, preproc_func)] *)
Definition CorrelatorView_new (left_image right_image : ImageViewRef)
    (preproc_func : PreProcFuncT) : Result CorrelatorView :=
  rbind (VW_ASSERT ((ref_cols left_image =? ref_cols right_image)
                    && (ref_rows left_image =? ref_rows right_image))
                   (ArgumentErr dimensions_msg)) (fun _ =>
  rbind (VW_ASSERT ((ref_channels left_image =? 1) && (ref_planes left_image =? 1)
                    && (ref_channels right_image =? 1) && (ref_planes right_image =? 1))
                   (ArgumentErr channels_msg)) (fun _ =>
  Ok (mkCorrelatorView left_image right_image preproc_func
        (BBox2i_xywh (-50) (-50) 100 100) (mkVector2i 24 24)
        true true false (flit 2) (flit (13 # 10)) ""%string))).

(** The setters assign the member, and nothing else. *)
Definition set_search_range (cv : CorrelatorView) (range : BBox2i) : CorrelatorView :=
  mkCorrelatorView (m_left_image cv) (m_right_image cv) (m_preproc_func cv)
    range (m_kernel_size cv)
    (m_do_h_subpixel cv) (m_do_v_subpixel cv) (m_do_affine_subpixel cv)
    (m_cross_corr_threshold cv) (m_corr_score_threshold cv) (m_debug_prefix cv).

Definition search_range (cv : CorrelatorView) : BBox2i := m_search_range cv.

Definition set_kernel_size (cv : CorrelatorView) (size : Vector2i) : CorrelatorView :=
  mkCorrelatorView (m_left_image cv) (m_right_image cv) (m_preproc_func cv)
    (m_search_range cv) size
    (m_do_h_subpixel cv) (m_do_v_subpixel cv) (m_do_affine_subpixel cv)
    (m_cross_corr_threshold cv) (m_corr_score_threshold cv) (m_debug_prefix cv).

Definition kernel_size (cv : CorrelatorView) : Vector2i := m_kernel_size cv.

Definition set_debug_mode (cv : CorrelatorView) (debug_file_prefix : string) : CorrelatorView :=
  mkCorrelatorView (m_left_image cv) (m_right_image cv) (m_preproc_func cv)
    (m_search_range cv) (m_kernel_size cv)
    (m_do_h_subpixel cv) (m_do_v_subpixel cv) (m_do_affine_subpixel cv)
    (m_cross_corr_threshold cv) (m_corr_score_threshold cv) debug_file_prefix.

Definition cols (cv : CorrelatorView) : Z := ref_cols (m_left_image cv).
Definition rows (cv : CorrelatorView) : Z := ref_rows (m_left_image cv).
Definition planes (cv : CorrelatorView) : Z := 1.

(** [CorrelatorView::operator()(double i, double j, int32 p)] *)
Definition call (cv : CorrelatorView) (i j : double) (p : Z) : Result PixelDisparity :=
  vw_throw (NoImplErr noimpl_msg).

(** *** [prerasterize] *)

(** The two regions before the kernel is accounted for: the right one is
    the box moved by the search range, the left one is the box grown to the
    right one's size. *)
Definition search_bboxes (cv : CorrelatorView) (bbox : BBox2i) : BBox2i * BBox2i :=
  let left_crop_bbox := bbox in
  let right_crop_bbox :=
    mkBBox2i (vadd (bmin bbox) (bmin (m_search_range cv)))
             (vadd (bmax bbox) (bmax (m_search_range cv))) in
  let left_crop_bbox :=
    mkBBox2i (bmin left_crop_bbox)
             (vadd (bmin left_crop_bbox)
                   (mkVector2i (width right_crop_bbox) (height right_crop_bbox))) in
  (left_crop_bbox, right_crop_bbox).

(** [b.min() -= Vector2i(k[0], k[1]); b.max() += Vector2i(k[0], k[1]);] *)
Definition pad_bbox (b : BBox2i) (k : Vector2i) : BBox2i :=
  mkBBox2i (vsub (bmin b) (mkVector2i (vx k) (vy k)))
           (vadd (bmax b) (mkVector2i (vx k) (vy k))).

Definition crop_bboxes (cv : CorrelatorView) (bbox : BBox2i) : BBox2i * BBox2i :=
  let (left_crop_bbox, right_crop_bbox) := search_bboxes cv bbox in
  let right_crop_bbox := pad_bbox right_crop_bbox (m_kernel_size cv) in
  let left_crop_bbox := pad_bbox left_crop_bbox (m_kernel_size cv) in
  (left_crop_bbox, right_crop_bbox).

Definition cropped_left_image (cv : CorrelatorView) (bbox : BBox2i) : ImageView PixelT :=
  crop_edge_extended (m_left_image cv) (fst (crop_bboxes cv bbox)).

Definition cropped_right_image (cv : CorrelatorView) (bbox : BBox2i) : ImageView PixelT :=
  crop_edge_extended (m_right_image cv) (snd (crop_bboxes cv bbox)).

(** What is streamed into [ostr] in debug mode. *)
Definition debug_suffix (bbox : BBox2i) : string :=
  ("-" +:+ pretty (vx (bmin bbox)) +:+ "-" +:+ pretty (vx (bmax bbox))
   +:+ "_" +:+ pretty (vy (bmin bbox)) +:+ "-" +:+ pretty (vy (bmax bbox))
   +:+ "-")%string.

(** The local [correlator] with its debug mode set when the view has a
    debug prefix. *)
Definition make_correlator (cv : CorrelatorView) (bbox : BBox2i) : PyramidCorrelator :=
  let correlator :=
    mkPyramidCorrelator
      (BBox2_xywh 0 0 (width (m_search_range cv)) (height (m_search_range cv)))
      (mkVector2i (vx (m_kernel_size cv)) (vy (m_kernel_size cv)))
      (m_cross_corr_threshold cv) (m_corr_score_threshold cv)
      (m_do_h_subpixel cv) (m_do_v_subpixel cv) (m_do_affine_subpixel cv)
      ""%string in
  if negb (String.length (m_debug_prefix cv) =? 0)%nat
  then pc_set_debug_mode correlator (m_debug_prefix cv +:+ debug_suffix bbox)%string
  else correlator.

(** What the loop body does to one pixel value. *)
Definition adjust_pixel (range : BBox2i) (px : PixelDisparity) : PixelDisparity :=
  mkPixelDisparity (fadd (h px) (float_of_int32 (vx (bmin range))))
                   (fadd (v px) (float_of_int32 (vy (bmin range))))
                   (missing px).

(** [if (!disparity_map(u,v).missing()) { disparity_map(u,v).h() += ...;
    disparity_map(u,v).v() += ...; }] *)
Definition adjust_at (range : BBox2i) (disparity_map : ImageView PixelDisparity)
    (u v' : nat) : ImageView PixelDisparity :=
  match iv_at disparity_map u v' with
  | Some px =>
      if negb (missing px)
      then iv_set disparity_map u v' (adjust_pixel range px)
      else disparity_map
  | None => disparity_map
  end.

(** [for (int u = 0; u < disparity_map.cols(); ++u)] *)
Definition adjust_row (range : BBox2i) (disparity_map : ImageView PixelDisparity)
    (v' : nat) : ImageView PixelDisparity :=
  foldl (fun dm u => adjust_at range dm u v') disparity_map
        (seq 0 (iv_cols disparity_map)).

(** [for (int v = 0; v < disparity_map.rows(); ++v)] *)
Definition adjust_disparities (range : BBox2i)
    (disparity_map : ImageView PixelDisparity) : ImageView PixelDisparity :=
  foldl (fun dm v' => adjust_row range dm v') disparity_map
        (seq 0 (iv_rows disparity_map)).

(** The correlator's output for the two padded crops. *)
Definition correlated (cv : CorrelatorView) (bbox : BBox2i) : ImageView PixelDisparity :=
  correlate (make_correlator cv bbox) (cropped_left_image cv bbox)
    (cropped_right_image cv bbox) (m_preproc_func cv).

(** The box of the final [CropView]. *)
Definition result_bbox (cv : CorrelatorView) (bbox : BBox2i) : BBox2i :=
  BBox2i_xywh (to_int32 (vx (m_kernel_size cv) - vx (bmin bbox)))
              (to_int32 (vy (m_kernel_size cv) - vy (bmin bbox)))
              (width bbox) (height bbox).

(** [CorrelatorView::prerasterize(bbox)] *)
Definition prerasterize (cv : CorrelatorView) (bbox : BBox2i) : Logged CropView :=
  bind (vw_out InfoMessage "stereo"
          [LogText "CorrelatorView: rasterizing image block "; LogBBox bbox;
           LogText "."]) (fun _ =>
  let left_crop_bbox := fst (crop_bboxes cv bbox) in
  let right_crop_bbox := snd (crop_bboxes cv bbox) in
  bind (vw_out DebugMessage "stereo"
          [LogText "   search_range: "; LogBBox (m_search_range cv)]) (fun _ =>
  bind (vw_out DebugMessage "stereo"
          [LogText " left_crop_bbox: "; LogBBox left_crop_bbox]) (fun _ =>
  bind (vw_out DebugMessage "stereo"
          [LogText "right_crop_bbox: "; LogBBox right_crop_bbox]) (fun _ =>
  let cropped_left_image := crop_edge_extended (m_left_image cv) left_crop_bbox in
  let cropped_right_image := crop_edge_extended (m_right_image cv) right_crop_bbox in
  let correlator := make_correlator cv bbox in
  let disparity_map :=
    correlate correlator cropped_left_image cropped_right_image (m_preproc_func cv) in
  let disparity_map := adjust_disparities (m_search_range cv) disparity_map in
  ret (CropView_new disparity_map (result_bbox cv bbox)))))).

(** [CorrelatorView::rasterize(dest, bbox)]: [vw::rasterize] fills [dest]
    with the pixels of the prerasterized view at the coordinates of [bbox];
    the result is what [dest] then holds. *)
Definition rasterize (cv : CorrelatorView) (bbox : BBox2i)
  : Logged (ImageView (option PixelDisparity)) :=
  bind (prerasterize cv bbox) (fun pre =>
  ret (materialize (crop_pixel (crop_at pre) bbox) (width bbox) (height bbox))).

(** *** Properties of the adjustment loops *)

(** What the loops make of one pixel value. *)
Definition adjusted (range : BBox2i) (px : PixelDisparity) : PixelDisparity :=
  if missing px then px else adjust_pixel range px.

Lemma adjust_at_extent range dm u v' :
  iv_cols (adjust_at range dm u v') = iv_cols dm
  /\ iv_rows (adjust_at range dm u v') = iv_rows dm.
Proof.
  unfold adjust_at. destruct (iv_at dm u v') as [px|]; [|auto].
  destruct (negb (missing px)); auto.
Qed.

Lemma adjust_at_lookup range dm u v' u' v'' :
  iv_at (adjust_at range dm u v') u' v''
  = if decide (u' = u /\ v'' = v')
    then adjusted range <$> iv_at dm u' v''
    else iv_at dm u' v''.
Proof.
  unfold adjust_at, adjusted.
  destruct (iv_at dm u v') as [px|] eqn:Hat.
  - destruct (missing px) eqn:Hm; simpl.
    + case_decide as Hd; [|reflexivity].
      destruct Hd as [-> ->]. rewrite Hat; simpl. now rewrite Hm.
    + rewrite (iv_at_set _ _ _ _ px) by assumption.
      case_decide as Hd; [|reflexivity].
      destruct Hd as [-> ->]. rewrite Hat; simpl. now rewrite Hm.
  - case_decide as Hd; [|reflexivity].
    destruct Hd as [-> ->]. now rewrite Hat.
Qed.

Lemma adjust_cols_lookup range v' (n : nat) :
  forall dm u' v'',
    let dm' := foldl (fun dm u => adjust_at range dm u v') dm (seq 0 n) in
    iv_cols dm' = iv_cols dm /\ iv_rows dm' = iv_rows dm
    /\ iv_at dm' u' v''
       = if decide ((u' < n)%nat /\ v'' = v')
         then adjusted range <$> iv_at dm u' v''
         else iv_at dm u' v''.
Proof.
  induction n as [|n IH]; intros dm u' v''; cbv zeta.
  - simpl. repeat split; try (case_decide as Hd; [lia|reflexivity]).
  - rewrite seq_S, foldl_snoc; simpl.
    destruct (IH dm u' v'') as (Hc & Hr & Hat).
    destruct (adjust_at_extent range
                (foldl (fun dm u => adjust_at range dm u v') dm (seq 0 n)) n v')
      as (Hc' & Hr').
    split; [congruence|]. split; [congruence|].
    rewrite adjust_at_lookup, Hat. clear Hat IH.
    repeat case_decide; try reflexivity; exfalso; intuition lia.
Qed.

Lemma adjust_row_lookup range dm v' u' v'' :
  iv_cols (adjust_row range dm v') = iv_cols dm
  /\ iv_rows (adjust_row range dm v') = iv_rows dm
  /\ iv_at (adjust_row range dm v') u' v''
     = if decide ((u' < iv_cols dm)%nat /\ v'' = v')
       then adjusted range <$> iv_at dm u' v''
       else iv_at dm u' v''.
Proof. apply adjust_cols_lookup. Qed.

Lemma adjust_rows_lookup range (m : nat) :
  forall dm u' v'',
    let dm' := foldl (fun dm v' => adjust_row range dm v') dm (seq 0 m) in
    iv_cols dm' = iv_cols dm /\ iv_rows dm' = iv_rows dm
    /\ iv_at dm' u' v''
       = if decide ((u' < iv_cols dm)%nat /\ (v'' < m)%nat)
         then adjusted range <$> iv_at dm u' v''
         else iv_at dm u' v''.
Proof.
  induction m as [|m IH]; intros dm u' v''; cbv zeta.
  - simpl. repeat split; try (case_decide as Hd; [lia|reflexivity]).
  - rewrite seq_S, foldl_snoc; simpl.
    destruct (IH dm u' v'') as (Hc & Hr & Hat).
    destruct (adjust_row_lookup range
                (foldl (fun dm v' => adjust_row range dm v') dm (seq 0 m)) m u' v'')
      as (Hc' & Hr' & Hat').
    split; [congruence|]. split; [congruence|].
    rewrite Hat', Hat, Hc. clear Hat Hat' IH.
    repeat case_decide; try reflexivity; exfalso; intuition lia.
Qed.

(** The two loops together: every pixel within the extent is adjusted
    once, and the extent is kept. *)
Lemma adjust_disparities_lookup range dm u' v'' :
  iv_cols (adjust_disparities range dm) = iv_cols dm
  /\ iv_rows (adjust_disparities range dm) = iv_rows dm
  /\ iv_at (adjust_disparities range dm) u' v''
     = if decide ((u' < iv_cols dm)%nat /\ (v'' < iv_rows dm)%nat)
       then adjusted range <$> iv_at dm u' v''
       else iv_at dm u' v''.
Proof. apply adjust_rows_lookup. Qed.

(** The value [prerasterize] returns does not depend on the log. *)
Lemma prerasterize_value cv bbox log :
  fst (prerasterize cv bbox log)
  = CropView_new (adjust_disparities (m_search_range cv) (correlated cv bbox))
      (result_bbox cv bbox).
Proof. reflexivity. Qed.

Lemma prerasterize_log cv bbox log :
  exists lines : Log,
    length lines = 4%nat /\ snd (prerasterize cv bbox log) = log ++ lines.
Proof.
  eexists. split; [|unfold prerasterize, bind, vw_out, ret; simpl;
                    rewrite <- !app_assoc; reflexivity].
  reflexivity.
Qed.

(** *** Properties of the view *)

(** Every pixel of a crop of an edge-extended image is defined: it is the
    source pixel where the coordinate is inside the source, the default
    pixel elsewhere. *)
Lemma crop_edge_extended_at (src : ImageViewRef) (bbox : BBox2i) (i j : Z) :
  0 <= i < width bbox -> 0 <= j < height bbox ->
  iv_atZ (crop_edge_extended src bbox) i j
  = Some (default pixel_default
            (view_read src (to_int32 (vx (bmin bbox) + i))
                           (to_int32 (vy (bmin bbox) + j)))).
Proof.
  intros Hi Hj. unfold crop_edge_extended.
  rewrite iv_atZ_materialize by assumption.
  unfold crop_pixel, edge_extend_zero, view_read.
  now destruct (in_bounds src _ _).
Qed.

(** C1 (as amended).  Both crop regions are the searched regions grown by
    the whole kernel size on every side, and every pixel of the two crops
    is defined: reads outside a source image yield the default pixel. *)
Theorem crops_padded_by_kernel (cv : CorrelatorView) (bbox : BBox2i) :
  let left0 := fst (search_bboxes cv bbox) in
  let right0 := snd (search_bboxes cv bbox) in
  let left := fst (crop_bboxes cv bbox) in
  let right := snd (crop_bboxes cv bbox) in
  bmin left = vsub (bmin left0) (m_kernel_size cv)
  /\ bmax left = vadd (bmax left0) (m_kernel_size cv)
  /\ bmin right = vsub (bmin right0) (m_kernel_size cv)
  /\ bmax right = vadd (bmax right0) (m_kernel_size cv)
  /\ (forall i j : Z, 0 <= i < width left -> 0 <= j < height left ->
        iv_atZ (cropped_left_image cv bbox) i j
        = Some (default pixel_default
                  (view_read (m_left_image cv) (to_int32 (vx (bmin left) + i))
                                               (to_int32 (vy (bmin left) + j)))))
  /\ (forall i j : Z, 0 <= i < width right -> 0 <= j < height right ->
        iv_atZ (cropped_right_image cv bbox) i j
        = Some (default pixel_default
                  (view_read (m_right_image cv) (to_int32 (vx (bmin right) + i))
                                                (to_int32 (vy (bmin right) + j))))).
Proof.
  cbv zeta. split; [|split; [|split; [|split; [|split]]]].
  1-4: unfold crop_bboxes, search_bboxes, pad_bbox; simpl;
       destruct (m_kernel_size cv); reflexivity.
  - intros i j Hi Hj. unfold cropped_left_image.
    now apply crop_edge_extended_at.
  - intros i j Hi Hj. unfold cropped_right_image.
    now apply crop_edge_extended_at.
Qed.

(** C2.  In the tile [prerasterize] returns, a pixel the correlator left
    non-missing has the search range's minimum x added to its horizontal
    and the minimum y to its vertical disparity; a missing pixel is the
    correlator's, unchanged. *)
Theorem disparities_offset_by_search_min (cv : CorrelatorView) (bbox : BBox2i)
    (log : Log) (u v' : nat) (px : PixelDisparity) :
  (u < iv_cols (correlated cv bbox))%nat ->
  (v' < iv_rows (correlated cv bbox))%nat ->
  iv_at (correlated cv bbox) u v' = Some px ->
  iv_at (crop_child (fst (prerasterize cv bbox log))) u v'
  = Some (if missing px then px
          else mkPixelDisparity
                 (fadd (h px) (float_of_int32 (vx (bmin (m_search_range cv)))))
                 (fadd (v px) (float_of_int32 (vy (bmin (m_search_range cv)))))
                 false).
Proof.
  intros Hu Hv Hat. rewrite prerasterize_value; simpl.
  destruct (adjust_disparities_lookup (m_search_range cv) (correlated cv bbox) u v')
    as (_ & _ & Hl).
  rewrite Hl, decide_True by auto. rewrite Hat; simpl.
  unfold adjusted, adjust_pixel. now destruct (missing px) eqn:Hm.
Qed.

(** C3.  The view [prerasterize] returns has the width and the height of
    the box asked for, and its child is the correlator's tile for the two
    padded crops after the adjustment.  Its pixel at the coordinate (x, y)
    of the caller is the pixel of that tile that lies the kernel size plus
    the offset of (x, y) in the box away from the tile's corner, so the
    pixels of the box are the tile's pixels from (kernel.x, kernel.y) on:
    the kernel padding and the search margin stay outside. *)
Theorem prerasterize_extent (cv : CorrelatorView) (bbox : BBox2i) (log : Log) :
  let pre := fst (prerasterize cv bbox log) in
  let tile := adjust_disparities (m_search_range cv) (correlated cv bbox) in
  crop_cols pre = width bbox
  /\ crop_rows pre = height bbox
  /\ crop_child pre = tile
  /\ (forall x y : Z,
        crop_at pre x y
        = iv_atZ tile
            (to_int32 (vx (m_kernel_size cv) + (x - vx (bmin bbox))))
            (to_int32 (vy (m_kernel_size cv) + (y - vy (bmin bbox)))))
  /\ (forall i j : Z,
        crop_at pre (to_int32 (vx (bmin bbox) + i)) (to_int32 (vy (bmin bbox) + j))
        = iv_atZ tile
            (to_int32 (vx (m_kernel_size cv) + i))
            (to_int32 (vy (m_kernel_size cv) + j))).
Proof.
  cbv zeta. rewrite prerasterize_value.
  unfold crop_cols, crop_rows, crop_at, CropView_new, result_bbox; simpl.
  rewrite width_xywh, height_xywh.
  split; [apply to_int32_idem|]. split; [apply to_int32_idem|].
  split; [reflexivity|]. split.
  - intros x y. rewrite !to_int32_add_l. f_equal; f_equal; lia.
  - intros i j. rewrite !to_int32_add_l, !to_int32_add_r. f_equal; f_equal; lia.
Qed.

(** C4 (as amended).  A view that was constructed holds the default
    search range, from (-50,-50) to (50,50), and the default kernel, 24 by
    24; [set_kernel_size] and [set_search_range] store what they are given,
    whatever it is, and leave the rest of the view as it was. *)
Theorem configuration_is_stored_unchecked (left_image right_image : ImageViewRef)
    (preproc_func : PreProcFuncT) (cv : CorrelatorView)
    (size : Vector2i) (range : BBox2i) :
  CorrelatorView_new left_image right_image preproc_func = Ok cv ->
  kernel_size cv = mkVector2i 24 24
  /\ search_range cv = mkBBox2i (mkVector2i (-50) (-50)) (mkVector2i 50 50)
  /\ kernel_size (set_kernel_size cv size) = size
  /\ search_range (set_kernel_size cv size) = search_range cv
  /\ search_range (set_search_range cv range) = range
  /\ kernel_size (set_search_range cv range) = kernel_size cv
  /\ kernel_size (set_search_range (set_kernel_size cv size) range) = size
  /\ search_range (set_search_range (set_kernel_size cv size) range) = range.
Proof.
  unfold CorrelatorView_new, VW_ASSERT, vw_throw, rbind.
  destruct (_ && _); [|discriminate].
  destruct (_ && _); [|discriminate].
  intros [= <-]. repeat split.
Qed.

(** The condition under which the constructor raises. *)
Definition mismatch (left_image right_image : ImageViewRef) : Prop :=
  ref_cols left_image <> ref_cols right_image
  \/ ref_rows left_image <> ref_rows right_image
  \/ ref_channels left_image <> 1 \/ ref_planes left_image <> 1
  \/ ref_channels right_image <> 1 \/ ref_planes right_image <> 1.

(** C5 (as amended).  The constructor raises an [ArgumentErr] exactly when
    the two images differ in columns or rows, or one of them has a channel
    count or a plane count other than one; otherwise it returns a view of
    the two images. *)
Theorem constructor_fails_iff (left_image right_image : ImageViewRef)
    (preproc_func : PreProcFuncT) :
  ((exists msg : string,
      CorrelatorView_new left_image right_image preproc_func
      = Throw (ArgumentErr msg))
   <-> mismatch left_image right_image)
  /\ ((exists cv : CorrelatorView,
         CorrelatorView_new left_image right_image preproc_func = Ok cv
         /\ m_left_image cv = left_image /\ m_right_image cv = right_image)
      <-> ~ mismatch left_image right_image).
Proof.
  unfold mismatch, CorrelatorView_new, VW_ASSERT, vw_throw, rbind.
  destruct (ref_cols left_image =? ref_cols right_image) eqn:Hc;
    [apply Z.eqb_eq in Hc | apply Z.eqb_neq in Hc];
  (destruct (ref_rows left_image =? ref_rows right_image) eqn:Hr;
    [apply Z.eqb_eq in Hr | apply Z.eqb_neq in Hr]);
  (destruct (ref_channels left_image =? 1) eqn:H1;
    [apply Z.eqb_eq in H1 | apply Z.eqb_neq in H1]);
  (destruct (ref_planes left_image =? 1) eqn:H2;
    [apply Z.eqb_eq in H2 | apply Z.eqb_neq in H2]);
  (destruct (ref_channels right_image =? 1) eqn:H3;
    [apply Z.eqb_eq in H3 | apply Z.eqb_neq in H3]);
  (destruct (ref_planes right_image =? 1) eqn:H4;
    [apply Z.eqb_eq in H4 | apply Z.eqb_neq in H4]);
  simpl; (split; split);
  try (intros (? & ?); discriminate);
  try (intros (? & ? & _); discriminate);
  try tauto;
  try (intros _; eexists; reflexivity);
  try (intros _; eexists; repeat split; reflexivity).
Qed.

(** C10.  Pixel access through [operator()] raises [NoImplErr], for every
    view and every coordinate. *)
Theorem call_not_implemented (cv : CorrelatorView) (i j : double) (p : Z) :
  call cv i j p = Throw (NoImplErr noimpl_msg)
  /\ forall px : PixelDisparity, call cv i j p <> Ok px.
Proof. split; [reflexivity | intros px; discriminate]. Qed.

(** *** Further properties of the view *)

(** Padding grows the width by twice the kernel's width, and the height
    by twice its height. *)
Lemma width_pad_bbox (b : BBox2i) (k : Vector2i) :
  width (pad_bbox b k) = to_int32 (width b + 2 * vx k).
Proof.
  unfold width, pad_bbox, vadd, vsub; simpl.
  rewrite to_int32_sub_both, to_int32_add_l. f_equal. lia.
Qed.

Lemma height_pad_bbox (b : BBox2i) (k : Vector2i) :
  height (pad_bbox b k) = to_int32 (height b + 2 * vy k).
Proof.
  unfold height, pad_bbox, vadd, vsub; simpl.
  rewrite to_int32_sub_both, to_int32_add_l. f_equal. lia.
Qed.

Lemma search_bboxes_extent (cv : CorrelatorView) (bbox : BBox2i) :
  width (fst (search_bboxes cv bbox)) = width (snd (search_bboxes cv bbox))
  /\ height (fst (search_bboxes cv bbox)) = height (snd (search_bboxes cv bbox)).
Proof.
  unfold search_bboxes; simpl. split.
  - unfold width at 1; simpl. rewrite to_int32_sub_l.
    replace (vx (bmin bbox) + width _ - vx (bmin bbox)) with (width
      {| bmin := vadd (bmin bbox) (bmin (m_search_range cv));
         bmax := vadd (bmax bbox) (bmax (m_search_range cv)) |}) by lia.
    apply to_int32_id, width_range.
  - unfold height at 1; simpl. rewrite to_int32_sub_l.
    replace (vy (bmin bbox) + height _ - vy (bmin bbox)) with (height
      {| bmin := vadd (bmin bbox) (bmin (m_search_range cv));
         bmax := vadd (bmax bbox) (bmax (m_search_range cv)) |}) by lia.
    apply to_int32_id, height_range.
Qed.

Lemma crop_bboxes_pad (cv : CorrelatorView) (bbox : BBox2i) :
  crop_bboxes cv bbox
  = (pad_bbox (fst (search_bboxes cv bbox)) (m_kernel_size cv),
     pad_bbox (snd (search_bboxes cv bbox)) (m_kernel_size cv)).
Proof. reflexivity. Qed.

(** X10.  The two crops handed to the correlator always have the same extent,
    whatever the box, the search range and the kernel are. *)
Theorem crops_have_equal_extent (cv : CorrelatorView) (bbox : BBox2i) :
  width (fst (crop_bboxes cv bbox)) = width (snd (crop_bboxes cv bbox))
  /\ height (fst (crop_bboxes cv bbox)) = height (snd (crop_bboxes cv bbox))
  /\ iv_cols (cropped_left_image cv bbox) = iv_cols (cropped_right_image cv bbox)
  /\ iv_rows (cropped_left_image cv bbox) = iv_rows (cropped_right_image cv bbox).
Proof.
  destruct (search_bboxes_extent cv bbox) as (Hw & Hh).
  assert (Hw' : width (fst (crop_bboxes cv bbox)) = width (snd (crop_bboxes cv bbox))).
  { rewrite crop_bboxes_pad; cbn [fst snd]. now rewrite !width_pad_bbox, Hw. }
  assert (Hh' : height (fst (crop_bboxes cv bbox)) = height (snd (crop_bboxes cv bbox))).
  { rewrite crop_bboxes_pad; cbn [fst snd]. now rewrite !height_pad_bbox, Hh. }
  split; [exact Hw'|]. split; [exact Hh'|].
  unfold cropped_left_image, cropped_right_image, crop_edge_extended, materialize.
  cbn [iv_cols iv_rows]. now rewrite Hw', Hh'.
Qed.

(** Coordinates far enough from the ends of [int32] for the sums that
    [prerasterize] forms not to wrap. *)
Definition small (z : Z) : Prop := - 2 ^ 28 <= z <= 2 ^ 28.

Definition coordinates_small (cv : CorrelatorView) (bbox : BBox2i) : Prop :=
  small (vx (bmin bbox)) /\ small (vy (bmin bbox))
  /\ small (vx (bmax bbox)) /\ small (vy (bmax bbox))
  /\ small (vx (bmin (m_search_range cv))) /\ small (vy (bmin (m_search_range cv)))
  /\ small (vx (bmax (m_search_range cv))) /\ small (vy (bmax (m_search_range cv)))
  /\ small (vx (m_kernel_size cv)) /\ small (vy (m_kernel_size cv)).

(** X11.  Without wrap-around the right crop is the box moved by the search
    range and grown by the kernel, the left crop starts the kernel before
    the box's min corner, and both are as wide as the box plus the search
    range plus twice the kernel. *)
Theorem crop_geometry (cv : CorrelatorView) (bbox : BBox2i) :
  coordinates_small cv bbox ->
  let minx := vx (bmin bbox) in
  let miny := vy (bmin bbox) in
  let maxx := vx (bmax bbox) in
  let maxy := vy (bmax bbox) in
  let sminx := vx (bmin (m_search_range cv)) in
  let sminy := vy (bmin (m_search_range cv)) in
  let smaxx := vx (bmax (m_search_range cv)) in
  let smaxy := vy (bmax (m_search_range cv)) in
  let k0 := vx (m_kernel_size cv) in
  let k1 := vy (m_kernel_size cv) in
  crop_bboxes cv bbox
  = (mkBBox2i (mkVector2i (minx - k0) (miny - k1))
              (mkVector2i (minx + (maxx - minx + (smaxx - sminx)) + k0)
                          (miny + (maxy - miny + (smaxy - sminy)) + k1)),
     mkBBox2i (mkVector2i (minx + sminx - k0) (miny + sminy - k1))
              (mkVector2i (maxx + smaxx + k0) (maxy + smaxy + k1)))
  /\ width (fst (crop_bboxes cv bbox)) = (maxx - minx) + (smaxx - sminx) + 2 * k0
  /\ height (fst (crop_bboxes cv bbox)) = (maxy - miny) + (smaxy - sminy) + 2 * k1.
Proof.
  unfold coordinates_small, small.
  intros (H1 & H2 & H3 & H4 & H5 & H6 & H7 & H8 & H9 & H10). cbv zeta.
  assert (Hid : forall z, - 2 ^ 31 <= z < 2 ^ 31 -> to_int32 z = z)
    by (intros z Hz; now apply to_int32_id).
  assert (Hbox : crop_bboxes cv bbox
    = (mkBBox2i (mkVector2i (vx (bmin bbox) - vx (m_kernel_size cv))
                            (vy (bmin bbox) - vy (m_kernel_size cv)))
                (mkVector2i (vx (bmin bbox) + (vx (bmax bbox) - vx (bmin bbox)
                               + (vx (bmax (m_search_range cv)) - vx (bmin (m_search_range cv))))
                             + vx (m_kernel_size cv))
                            (vy (bmin bbox) + (vy (bmax bbox) - vy (bmin bbox)
                               + (vy (bmax (m_search_range cv)) - vy (bmin (m_search_range cv))))
                             + vy (m_kernel_size cv))),
       mkBBox2i (mkVector2i (vx (bmin bbox) + vx (bmin (m_search_range cv)) - vx (m_kernel_size cv))
                            (vy (bmin bbox) + vy (bmin (m_search_range cv)) - vy (m_kernel_size cv)))
                (mkVector2i (vx (bmax bbox) + vx (bmax (m_search_range cv)) + vx (m_kernel_size cv))
                            (vy (bmax bbox) + vy (bmax (m_search_range cv)) + vy (m_kernel_size cv))))).
  { unfold crop_bboxes, search_bboxes, pad_bbox, vadd, vsub, width, height; simpl.
    repeat match goal with
           | |- context [to_int32 ?t] => rewrite (Hid t) by lia
           end.
    repeat f_equal; lia. }
  rewrite Hbox. split; [reflexivity|].
  unfold width, height; simpl.
  repeat match goal with
         | |- context [to_int32 ?t] => rewrite (Hid t) by lia
         end.
  lia.
Qed.

Lemma to_int32_shift_back (a k i : Z) :
  to_int32 (to_int32 (to_int32 a - k) + (k + i)) = to_int32 (a + i).
Proof.
  rewrite to_int32_add_l.
  replace (to_int32 a - k + (k + i)) with (to_int32 a + i) by lia.
  apply to_int32_add_l.
Qed.

(** X12.  The crops are aligned with the box: the pixel that lies the kernel
    size plus (i, j) away from the corner of the left crop is the left
    image's pixel at the box's min corner plus (i, j), and in the right crop
    it is the right image's pixel a further search-range minimum away; the
    default pixel stands in outside the images. *)
Theorem crops_are_aligned (cv : CorrelatorView) (bbox : BBox2i) (i j : Z) :
  0 <= vx (m_kernel_size cv) + i < width (fst (crop_bboxes cv bbox)) ->
  0 <= vy (m_kernel_size cv) + j < height (fst (crop_bboxes cv bbox)) ->
  iv_atZ (cropped_left_image cv bbox)
         (vx (m_kernel_size cv) + i) (vy (m_kernel_size cv) + j)
  = Some (default pixel_default
            (view_read (m_left_image cv)
               (to_int32 (vx (bmin bbox) + i)) (to_int32 (vy (bmin bbox) + j))))
  /\ iv_atZ (cropped_right_image cv bbox)
            (vx (m_kernel_size cv) + i) (vy (m_kernel_size cv) + j)
     = Some (default pixel_default
               (view_read (m_right_image cv)
                  (to_int32 (vx (bmin bbox) + vx (bmin (m_search_range cv)) + i))
                  (to_int32 (vy (bmin bbox) + vy (bmin (m_search_range cv)) + j)))).
Proof.
  intros Hi Hj.
  destruct (crops_have_equal_extent cv bbox) as (Hw & Hh & _).
  split.
  - unfold cropped_left_image. rewrite crop_edge_extended_at by assumption.
    rewrite crop_bboxes_pad; simpl. unfold search_bboxes; simpl.
    rewrite !to_int32_add_l. do 3 f_equal; f_equal; lia.
  - unfold cropped_right_image.
    rewrite crop_edge_extended_at by (rewrite <- ?Hw, <- ?Hh; assumption).
    rewrite crop_bboxes_pad; simpl. unfold search_bboxes; simpl.
    rewrite !to_int32_shift_back. reflexivity.
Qed.

(** X13.  What [rasterize] writes at (i, j) of the destination is the pixel of
    the adjusted disparity tile the kernel size plus (i, j) away from the
    tile's corner, wherever the box lies. *)
Theorem rasterize_window (cv : CorrelatorView) (bbox : BBox2i) (log : Log) (i j : Z) :
  0 <= i < width bbox -> 0 <= j < height bbox ->
  iv_atZ (fst (rasterize cv bbox log)) i j
  = Some (iv_atZ (adjust_disparities (m_search_range cv) (correlated cv bbox))
                 (to_int32 (vx (m_kernel_size cv) + i))
                 (to_int32 (vy (m_kernel_size cv) + j))).
Proof.
  intros Hi Hj.
  assert (Hr : fst (rasterize cv bbox log)
               = materialize (crop_pixel (crop_at (fst (prerasterize cv bbox log))) bbox)
                             (width bbox) (height bbox)) by reflexivity.
  rewrite Hr, iv_atZ_materialize by assumption.
  rewrite prerasterize_value.
  unfold crop_pixel, crop_at, CropView_new, result_bbox; simpl.
  rewrite !to_int32_add_l, !to_int32_add_r. do 2 f_equal; f_equal; lia.
Qed.

(** X14.  The adjustment never changes which pixels are missing, nor the extent
    of the tile. *)
Theorem adjustment_keeps_missing (range : BBox2i)
    (disparity_map : ImageView PixelDisparity) (u v' : nat) :
  missing <$> iv_at (adjust_disparities range disparity_map) u v'
  = missing <$> iv_at disparity_map u v'
  /\ iv_cols (adjust_disparities range disparity_map) = iv_cols disparity_map
  /\ iv_rows (adjust_disparities range disparity_map) = iv_rows disparity_map.
Proof.
  destruct (adjust_disparities_lookup range disparity_map u v') as (Hc & Hr & Hat).
  split; [|auto]. rewrite Hat. case_decide; [|reflexivity].
  destruct (iv_at disparity_map u v') as [px|]; [|reflexivity]. simpl.
  unfold adjusted. destruct (missing px) eqn:Hm; simpl; rewrite ?Hm; reflexivity.
Qed.

(** X15.  A constructed view reports the extent of both of its images, whose
    channel and plane counts are one, and the setters keep that. *)
Theorem constructed_view_extent (left_image right_image : ImageViewRef)
    (preproc_func : PreProcFuncT) (cv : CorrelatorView)
    (size : Vector2i) (range : BBox2i) (prefix : string) :
  CorrelatorView_new left_image right_image preproc_func = Ok cv ->
  let cv' := set_debug_mode (set_search_range (set_kernel_size cv size) range) prefix in
  cols cv' = ref_cols left_image /\ cols cv' = ref_cols right_image
  /\ rows cv' = ref_rows left_image /\ rows cv' = ref_rows right_image
  /\ ref_planes left_image = planes cv' /\ ref_planes right_image = planes cv'
  /\ ref_channels left_image = 1 /\ ref_channels right_image = 1.
Proof.
  unfold CorrelatorView_new, VW_ASSERT, vw_throw, rbind.
  destruct ((ref_cols left_image =? ref_cols right_image)
            && (ref_rows left_image =? ref_rows right_image)) eqn:Hdim;
    [|discriminate].
  destruct ((ref_channels left_image =? 1) && (ref_planes left_image =? 1)
            && (ref_channels right_image =? 1) && (ref_planes right_image =? 1))
    eqn:Hch; [|discriminate].
  intros [= <-]. cbv zeta. unfold cols, rows, planes; simpl.
  rewrite !andb_true_iff, !Z.eqb_eq in Hdim, Hch. intuition lia.
Qed.

End CorrelatorView.

Arguments mkImageViewRef {PixelT}.
Arguments ref_cols {PixelT}.
Arguments ref_rows {PixelT}.
Arguments ref_planes {PixelT}.
Arguments ref_channels {PixelT}.
Arguments ref_pixel {PixelT}.
Arguments view_read {PixelT}.
Arguments mismatch {PixelT}.
Arguments mkPixelDisparity {float}.
Arguments h {float}.
Arguments v {float}.
Arguments missing {float}.
Arguments crop_child {float}.
Arguments crop_cols {float}.
Arguments crop_rows {float}.
Arguments crop_at {float}.
Arguments mkCorrelatorView {PixelT float PreProcFuncT}.
Arguments m_left_image {PixelT float PreProcFuncT}.
Arguments m_right_image {PixelT float PreProcFuncT}.
Arguments m_search_range {PixelT float PreProcFuncT}.
Arguments m_kernel_size {PixelT float PreProcFuncT}.
Arguments set_search_range {PixelT float PreProcFuncT}.
Arguments set_kernel_size {PixelT float PreProcFuncT}.
Arguments search_range {PixelT float PreProcFuncT}.
Arguments kernel_size {PixelT float PreProcFuncT}.
Arguments search_bboxes {PixelT float PreProcFuncT}.
Arguments crop_bboxes {PixelT float PreProcFuncT}.

(** *** A small instance

    Integer pixels, rationals for [float] and [double], no preprocessing,
    and a stand-in for the correlator that pairs the two tiles pixel by
    pixel and marks a pixel missing where the tiles agree. *)

Definition pairing_correlate (c : PyramidCorrelator Q) (left right : ImageView Z)
    (preproc : unit) : ImageView (PixelDisparity Q) :=
  mkImageView (iv_cols left) (iv_rows left)
    (zip_with (zip_with (fun a b => mkPixelDisparity (inject_Z a) (inject_Z b) (a =? b)))
       (iv_data left) (iv_data right)).

Definition QView : Type := CorrelatorView Z Q unit.

Definition Q_new (left_image right_image : ImageViewRef Z) : Result QView :=
  CorrelatorView_new Z Q (fun q => q) unit left_image right_image tt.

Definition Q_correlated (cv : QView) (bbox : BBox2i) : ImageView (PixelDisparity Q) :=
  correlated Z 0 Q unit pairing_correlate cv bbox.

Definition Q_prerasterize (cv : QView) (bbox : BBox2i) : Logged (CropView Q) :=
  prerasterize Z 0 Q Qplus inject_Z unit pairing_correlate cv bbox.

Definition Q_cropped_left_image (cv : QView) (bbox : BBox2i) : ImageView Z :=
  cropped_left_image Z 0 Q unit cv bbox.

Definition Q_cropped_right_image (cv : QView) (bbox : BBox2i) : ImageView Z :=
  cropped_right_image Z 0 Q unit cv bbox.

(** Two 4 by 4 single-channel, single-plane images. *)
Definition left0 : ImageViewRef Z := mkImageViewRef 4 4 1 1 (fun i j => 1 + i + 10 * j).
Definition right0 : ImageViewRef Z := mkImageViewRef 4 4 1 1 (fun i j => 1 + 2 * i + j).

(** An image without pixels, as [ImageView<float>()] is. *)
Definition no_image : ImageViewRef Z := mkImageViewRef 0 0 0 1 (fun _ _ => 0).

(** The view of [left0] and [right0] as the constructor leaves it. *)
Definition cv0 : QView :=
  mkCorrelatorView left0 right0 tt
    (mkBBox2i (mkVector2i (-50) (-50)) (mkVector2i 50 50)) (mkVector2i 24 24)
    true true false 2%Q (13 # 10)%Q ""%string.

(** The same view with a 1 by 1 kernel and a search range of one pixel
    each way. *)
Definition cv1 : QView :=
  set_search_range (set_kernel_size cv0 (mkVector2i 1 1))
    (mkBBox2i (mkVector2i (-1) (-1)) (mkVector2i 1 1)).

Definition bbox0 : BBox2i := mkBBox2i (mkVector2i 0 0) (mkVector2i 10 10).
Definition bbox1 : BBox2i := mkBBox2i (mkVector2i 1 1) (mkVector2i 3 3).

Example Q_new_cv0 : Q_new left0 right0 = Ok cv0.
Proof. reflexivity. Qed.

Example crop_bboxes_cv0 :
  crop_bboxes cv0 bbox0
  = (mkBBox2i (mkVector2i (-24) (-24)) (mkVector2i 134 134),
     mkBBox2i (mkVector2i (-74) (-74)) (mkVector2i 84 84)).
Proof. reflexivity. Qed.

Example crop_bboxes_cv1 :
  crop_bboxes cv1 bbox1
  = (mkBBox2i (mkVector2i 0 0) (mkVector2i 6 6),
     mkBBox2i (mkVector2i (-1) (-1)) (mkVector2i 5 5)).
Proof. reflexivity. Qed.

Example cropped_right_image_cv1 :
  iv_data (Q_cropped_right_image cv1 bbox1)
  = [[0; 0; 0; 0; 0; 0];
     [0; 1; 3; 5; 7; 0];
     [0; 2; 4; 6; 8; 0];
     [0; 3; 5; 7; 9; 0];
     [0; 4; 6; 8; 10; 0];
     [0; 0; 0; 0; 0; 0]].
Proof. reflexivity. Qed.

(** The padding C1 words: half the kernel, by integer division. *)
Definition half_kernel (k : Vector2i) : Vector2i :=
  mkVector2i (vx k ÷ 2) (vy k ÷ 2).

(** C1 as stated fails: with the default 24 by 24 kernel the left crop of
    the box from (0,0) to (10,10) starts at (-24,-24), where padding by half
    the kernel would start it at (-12,-12). *)
Lemma half_kernel_padding_fails :
  fst (crop_bboxes cv0 bbox0)
  = mkBBox2i (mkVector2i (-24) (-24)) (mkVector2i 134 134)
  /\ pad_bbox (fst (search_bboxes cv0 bbox0)) (half_kernel (kernel_size cv0))
     = mkBBox2i (mkVector2i (-12) (-12)) (mkVector2i 122 122)
  /\ fst (crop_bboxes cv0 bbox0)
     <> pad_bbox (fst (search_bboxes cv0 bbox0)) (half_kernel (kernel_size cv0)).
Proof. repeat split. discriminate. Qed.

Lemma crops_padded_by_kernel_witness :
  (0 <= 0 < width (fst (crop_bboxes cv1 bbox1)))
  /\ (0 <= 5 < height (fst (crop_bboxes cv1 bbox1)))
  /\ iv_atZ (Q_cropped_left_image cv1 bbox1) 0 5
     = Some (default 0
               (view_read left0
                  (to_int32 (vx (bmin (fst (crop_bboxes cv1 bbox1))) + 0))
                  (to_int32 (vy (bmin (fst (crop_bboxes cv1 bbox1))) + 5)))).
Proof.
  assert (Hi : 0 <= 0 < width (fst (crop_bboxes cv1 bbox1))) by (vm_compute; split; congruence).
  assert (Hj : 0 <= 5 < height (fst (crop_bboxes cv1 bbox1))) by (vm_compute; split; congruence).
  split; [exact Hi|]. split; [exact Hj|].
  exact (proj1 (proj2 (proj2 (proj2 (proj2
           (crops_padded_by_kernel Z 0 Q unit cv1 bbox1))))) 0 5 Hi Hj).
Defined.

Lemma disparities_offset_by_search_min_witness :
  exists px : PixelDisparity Q,
    (2 < iv_cols (Q_correlated cv1 bbox1))%nat
    /\ (3 < iv_rows (Q_correlated cv1 bbox1))%nat
    /\ iv_at (Q_correlated cv1 bbox1) 2 3 = Some px
    /\ missing px = false
    /\ iv_at (crop_child (fst (Q_prerasterize cv1 bbox1 []))) 2 3
       = Some (if missing px then px
               else mkPixelDisparity
                      (Qplus (h px) (inject_Z (vx (bmin (m_search_range cv1)))))
                      (Qplus (v px) (inject_Z (vy (bmin (m_search_range cv1)))))
                      false).
Proof.
  assert (Hu : (2 < iv_cols (Q_correlated cv1 bbox1))%nat) by (vm_compute; lia).
  assert (Hv : (3 < iv_rows (Q_correlated cv1 bbox1))%nat) by (vm_compute; lia).
  assert (Hat : iv_at (Q_correlated cv1 bbox1) 2 3
                = Some (mkPixelDisparity (inject_Z 33) (inject_Z 5) false))
    by reflexivity.
  eexists. split; [exact Hu|]. split; [exact Hv|]. split; [exact Hat|].
  split; [reflexivity|].
  exact (disparities_offset_by_search_min Z 0 Q Qplus inject_Z unit
           pairing_correlate cv1 bbox1 [] 2 3 _ Hu Hv Hat).
Defined.

(** C4 as stated fails: a kernel of 0 by -3 and a search range from (5,5)
    to (-5,-5) are stored in a constructed view like any other value. *)
Lemma nonpositive_kernel_is_accepted :
  let inverted := mkBBox2i (mkVector2i 5 5) (mkVector2i (-5) (-5)) in
  Q_new left0 right0 = Ok cv0
  /\ kernel_size (set_kernel_size cv0 (mkVector2i 0 (-3))) = mkVector2i 0 (-3)
  /\ width inverted < 0 /\ height inverted < 0
  /\ search_range (set_search_range cv0 inverted) = inverted.
Proof. cbv zeta. repeat split. Qed.

Lemma configuration_is_stored_unchecked_witness :
  Q_new left0 right0 = Ok cv0
  /\ kernel_size cv0 = mkVector2i 24 24
  /\ search_range cv0 = mkBBox2i (mkVector2i (-50) (-50)) (mkVector2i 50 50)
  /\ kernel_size (set_kernel_size cv0 (mkVector2i 0 (-3))) = mkVector2i 0 (-3)
  /\ search_range (set_search_range cv0 bbox0) = bbox0.
Proof.
  assert (Hnew : Q_new left0 right0 = Ok cv0) by reflexivity.
  destruct (configuration_is_stored_unchecked Z Q (fun q => q) unit
              left0 right0 tt cv0 (mkVector2i 0 (-3)) bbox0 Hnew)
    as (Hk & Hs & Hk' & _ & Hs' & _).
  repeat split; assumption.
Defined.

(** The condition C5 words: different extents, or more than one channel
    or plane. *)
Definition more_than_one (left_image right_image : ImageViewRef Z) : Prop :=
  ref_cols left_image <> ref_cols right_image
  \/ ref_rows left_image <> ref_rows right_image
  \/ ref_channels left_image > 1 \/ ref_planes left_image > 1
  \/ ref_channels right_image > 1 \/ ref_planes right_image > 1.

(** C5 as stated fails: two images without pixels have equal extents and
    no more than one channel or plane, and the constructor raises, their
    plane count being 0 and not 1. *)
Lemma images_without_planes_are_rejected :
  Q_new no_image no_image = Throw (ArgumentErr channels_msg)
  /\ ~ more_than_one no_image no_image.
Proof.
  split; [reflexivity|].
  unfold more_than_one, no_image; simpl. lia.
Qed.

(** *** The further properties on the instance *)

Definition Q_rasterize (cv : QView) (bbox : BBox2i)
  : Logged (ImageView (option (PixelDisparity Q))) :=
  rasterize Z 0 Q Qplus inject_Z unit pairing_correlate cv bbox.

Definition Q_adjust_disparities (range : BBox2i)
    (disparity_map : ImageView (PixelDisparity Q)) : ImageView (PixelDisparity Q) :=
  adjust_disparities Q Qplus inject_Z range disparity_map.

Example Q_rasterize_cv1 :
  iv_data (fst (Q_rasterize cv1 bbox1 []))
  = [[Some (mkPixelDisparity (inject_Z 12 + inject_Z (-1))%Q
                             (inject_Z 1 + inject_Z (-1))%Q false);
      Some (mkPixelDisparity (inject_Z 13 + inject_Z (-1))%Q
                             (inject_Z 3 + inject_Z (-1))%Q false)];
     [Some (mkPixelDisparity (inject_Z 22 + inject_Z (-1))%Q
                             (inject_Z 2 + inject_Z (-1))%Q false);
      Some (mkPixelDisparity (inject_Z 23 + inject_Z (-1))%Q
                             (inject_Z 4 + inject_Z (-1))%Q false)]].
Proof. reflexivity. Qed.

Lemma crop_geometry_witness :
  coordinates_small Z Q unit cv1 bbox1
  /\ crop_bboxes cv1 bbox1
     = (mkBBox2i (mkVector2i (1 - 1) (1 - 1))
                 (mkVector2i (1 + (3 - 1 + (1 - -1)) + 1) (1 + (3 - 1 + (1 - -1)) + 1)),
        mkBBox2i (mkVector2i (1 + -1 - 1) (1 + -1 - 1))
                 (mkVector2i (3 + 1 + 1) (3 + 1 + 1)))
  /\ width (fst (crop_bboxes cv1 bbox1)) = (3 - 1) + (1 - -1) + 2 * 1
  /\ height (fst (crop_bboxes cv1 bbox1)) = (3 - 1) + (1 - -1) + 2 * 1.
Proof.
  assert (Hs : coordinates_small Z Q unit cv1 bbox1)
    by (unfold coordinates_small, small; vm_compute; repeat split; congruence).
  split; [exact Hs|].
  exact (crop_geometry Z Q unit cv1 bbox1 Hs).
Defined.

Lemma crops_are_aligned_witness :
  iv_atZ (Q_cropped_left_image cv1 bbox1) (1 + 1) (1 + 2)
  = Some (default 0 (view_read left0 (to_int32 (1 + 1)) (to_int32 (1 + 2))))
  /\ iv_atZ (Q_cropped_right_image cv1 bbox1) (1 + 1) (1 + 2)
     = Some (default 0 (view_read right0 (to_int32 (1 + -1 + 1)) (to_int32 (1 + -1 + 2)))).
Proof.
  apply (crops_are_aligned Z 0 Q unit cv1 bbox1 1 2);
    vm_compute; repeat split; congruence.
Defined.

Lemma rasterize_window_witness :
  iv_atZ (fst (Q_rasterize cv1 bbox1 [])) 0 1
  = Some (iv_atZ (Q_adjust_disparities (m_search_range cv1) (Q_correlated cv1 bbox1))
                 (to_int32 (1 + 0)) (to_int32 (1 + 1))).
Proof.
  apply (rasterize_window Z 0 Q Qplus inject_Z unit pairing_correlate cv1 bbox1 [] 0 1);
    vm_compute; repeat split; congruence.
Defined.

Lemma constructed_view_extent_witness :
  let cv' := set_debug_mode Z Q unit (set_search_range (set_kernel_size cv0 (mkVector2i 3 5)) bbox1)
               "debug"%string in
  cols Z Q unit cv' = 4 /\ cols Z Q unit cv' = ref_cols right0
  /\ rows Z Q unit cv' = 4 /\ rows Z Q unit cv' = ref_rows right0
  /\ ref_planes left0 = planes Z Q unit cv' /\ ref_planes right0 = planes Z Q unit cv'
  /\ ref_channels left0 = 1 /\ ref_channels right0 = 1.
Proof.
  exact (constructed_view_extent Z Q (fun q => q) unit left0 right0 tt cv0
           (mkVector2i 3 5) bbox1 "debug"%string eq_refl).
Defined.

End Stereo.


(** ** Strings as the file tools use them

    [std::string::rfind] for one character, and the two Boost string
    algorithms the image writers call with the pattern ["*"]. *)

Module Strings.
Import Stdlib.Strings.Ascii.

(** [boost::find_last(s, c)], as the condition it is used for: does [c]
    occur in [s]? *)
Fixpoint contains (c : Ascii.ascii) (s : string) : bool :=
  match s with
  | EmptyString => false
  | String a s' => Ascii.eqb a c || contains c s'
  end.

(** [s.rfind(c)]: the index of the last [c] in [s], [None] for [npos]. *)
Fixpoint rfind (c : Ascii.ascii) (s : string) : option nat :=
  match s with
  | EmptyString => None
  | String a s' =>
      match rfind c s' with
      | Some n => Some (S n)
      | None => if Ascii.eqb a c then Some O else None
      end
  end.

(** [boost::replace_last(s, c, r)]: [s] with its last [c] replaced by [r];
    [s] itself when [c] does not occur. *)
Fixpoint replace_last_opt (c : Ascii.ascii) (r s : string) : option string :=
  match s with
  | EmptyString => None
  | String a s' =>
      match replace_last_opt c r s' with
      | Some t => Some (String a t)
      | None => if Ascii.eqb a c then Some (r +:+ s') else None
      end
  end.

Definition replace_last (c : Ascii.ascii) (r s : string) : string :=
  default s (replace_last_opt c r s).

(** [s.erase(pos, s.size())] for [pos <= s.size()]: the first [pos]
    characters. *)
Definition erase_from (pos : nat) (s : string) : string :=
  String.substring 0 pos s.

Lemma contains_app (c : Ascii.ascii) (s t : string) :
  contains c (s +:+ t) = contains c s || contains c t.
Proof.
  induction s as [|a s IH]; simpl; [reflexivity|].
  now rewrite IH, orb_assoc.
Qed.

Lemma rfind_absent (c : Ascii.ascii) (s : string) :
  contains c s = false -> rfind c s = None.
Proof.
  induction s as [|a s IH]; simpl; [reflexivity|].
  intros H. apply orb_false_iff in H as (Ha & Hs).
  now rewrite (IH Hs), Ha.
Qed.

Lemma rfind_last (c : Ascii.ascii) (pre post : string) :
  contains c post = false ->
  rfind c (pre +:+ String c post) = Some (String.length pre).
Proof.
  intros Hpost. induction pre as [|a pre IH]; simpl.
  - now rewrite (rfind_absent c post Hpost), Ascii.eqb_refl.
  - now rewrite IH.
Qed.

Lemma replace_last_absent (c : Ascii.ascii) (r s : string) :
  contains c s = false -> replace_last_opt c r s = None.
Proof.
  induction s as [|a s IH]; simpl; [reflexivity|].
  intros H. apply orb_false_iff in H as (Ha & Hs).
  now rewrite (IH Hs), Ha.
Qed.

(** Replacing the last [c] of [pre c post], where [post] has no [c], puts
    [r] between [pre] and [post]. *)
Lemma replace_last_app (c : Ascii.ascii) (r pre post : string) :
  contains c post = false ->
  replace_last c r (pre +:+ String c post) = pre +:+ r +:+ post.
Proof.
  intros Hpost. unfold replace_last.
  assert (H : replace_last_opt c r (pre +:+ String c post) = Some (pre +:+ r +:+ post)).
  { induction pre as [|a pre IH]; simpl.
    - now rewrite (replace_last_absent c r post Hpost), Ascii.eqb_refl.
    - now rewrite IH. }
  now rewrite H.
Qed.

Lemma replace_last_none (c : Ascii.ascii) (r s : string) :
  contains c s = false -> replace_last c r s = s.
Proof.
  intros H. unfold replace_last. now rewrite (replace_last_absent c r s H).
Qed.

Lemma erase_from_app (pre post : string) :
  erase_from (String.length pre) (pre +:+ post) = pre.
Proof.
  unfold erase_from. induction pre as [|a pre IH]; simpl.
  - now destruct post.
  - now rewrite IH.
Qed.

End Strings.

(** ** The plate tool: [prefix_from_filename] and the dispatch in [main] *)

Module Deplate.
Import Stdlib.Strings.Ascii.
Import Int Core Strings.

(** [static std::string prefix_from_filename(std::string const& filename)];
    [index] is the [int] that [rfind]'s [size_t] is converted to, -1 for
    [npos]. *)
Definition prefix_from_filename (filename : string) : string :=
  let result := filename in
  let index :=
    match rfind "."%char result with
    | Some n => to_int32 (Z.of_nat n)
    | None => -1
    end in
  if negb (index =? -1) then erase_from (Z.to_nat index) result else result.

Example prefix_of_plate : prefix_from_filename "moon.v2.plate" = "moon.v2"%string.
Proof. reflexivity. Qed.

Example prefix_of_bare_name : prefix_from_filename "moon" = "moon"%string.
Proof. reflexivity. Qed.

Example prefix_of_hidden_file : prefix_from_filename ".plate" = ""%string.
Proof. reflexivity. Qed.

(** X23.  The prefix is the name up to its last dot, and the whole name when it
    has no dot. *)
Theorem prefix_from_filename_suffix (pre ext : string) :
  Z.of_nat (String.length pre) < 2 ^ 31 ->
  contains "."%char ext = false ->
  prefix_from_filename (pre +:+ String "."%char ext) = pre
  /\ prefix_from_filename ext = ext.
Proof.
  intros Hlen Hext. unfold prefix_from_filename. split.
  - rewrite (rfind_last _ pre ext Hext).
    rewrite to_int32_id by (unfold int32_range; lia).
    replace (Z.of_nat (String.length pre) =? -1) with false
      by (symmetry; apply Z.eqb_neq; lia).
    simpl. rewrite Nat2Z.id. apply erase_from_app.
  - now rewrite (rfind_absent _ ext Hext).
Qed.

Lemma prefix_from_filename_suffix_witness :
  prefix_from_filename ("moon.v2" +:+ String "."%char "plate") = "moon.v2"%string
  /\ prefix_from_filename "plate" = "plate"%string.
Proof.
  apply (prefix_from_filename_suffix "moon.v2" "plate");
    [vm_compute; reflexivity | reflexivity].
Defined.

(** *** The dispatch on the plate file's pixel format and channel type *)

(** The pixel types [do_tiles] is instantiated with. *)
Inductive TilePixel : Type :=
| PixelGray_uint8
| PixelGray_int16
| PixelGrayA_uint8
| PixelRGBA_uint8.

Definition unsupported_msg : string :=
  ("Platefile contains a channel type not supported by image2plate."
   +:+ line_feed)%string.

Section Dispatch.

(** The two enumerations of [vw/Image/PixelTypeInfo.h], which is not among
    the sources, with the enumerators the [switch] names. *)
Variables PixelFormatEnum ChannelTypeEnum : Type.
Context `{EqDecision PixelFormatEnum} `{EqDecision ChannelTypeEnum}.
Variables VW_PIXEL_GRAY VW_PIXEL_GRAYA VW_PIXEL_RGB VW_PIXEL_RGBA : PixelFormatEnum.
Variables VW_CHANNEL_UINT8 VW_CHANNEL_INT16 : ChannelTypeEnum.

(** The nested [switch] of [main]: the instance of [do_tiles] that is
    run, or the [ArgumentErr] that is thrown. *)
Definition dispatch (pixel_format : PixelFormatEnum) (channel_type : ChannelTypeEnum)
  : Result TilePixel :=
  if decide (pixel_format = VW_PIXEL_GRAY) then
    if decide (channel_type = VW_CHANNEL_UINT8) then Ok PixelGray_uint8
    else if decide (channel_type = VW_CHANNEL_INT16) then Ok PixelGray_int16
    else vw_throw (ArgumentErr unsupported_msg)
  else if decide (pixel_format = VW_PIXEL_GRAYA) then
    if decide (channel_type = VW_CHANNEL_UINT8) then Ok PixelGrayA_uint8
    else vw_throw (ArgumentErr unsupported_msg)
  else
    if decide (channel_type = VW_CHANNEL_UINT8) then Ok PixelRGBA_uint8
    else vw_throw (ArgumentErr unsupported_msg).

(** X24.  A plate file is converted exactly when its channels are 8-bit, or
    16-bit in a gray image without alpha; every other combination raises
    [ArgumentErr].  Any 8-bit format that is neither gray nor gray with
    alpha, RGB included, is converted as RGBA. *)
Theorem dispatch_supported (pixel_format : PixelFormatEnum)
    (channel_type : ChannelTypeEnum) :
  ((exists t : TilePixel, dispatch pixel_format channel_type = Ok t)
   <-> channel_type = VW_CHANNEL_UINT8
       \/ (pixel_format = VW_PIXEL_GRAY /\ channel_type = VW_CHANNEL_INT16))
  /\ (dispatch pixel_format channel_type = Throw (ArgumentErr unsupported_msg)
      <-> ~ (channel_type = VW_CHANNEL_UINT8
             \/ (pixel_format = VW_PIXEL_GRAY /\ channel_type = VW_CHANNEL_INT16)))
  /\ (pixel_format <> VW_PIXEL_GRAY -> pixel_format <> VW_PIXEL_GRAYA ->
      channel_type = VW_CHANNEL_UINT8 ->
      dispatch pixel_format channel_type = Ok PixelRGBA_uint8).
Proof.
  unfold dispatch, vw_throw.
  repeat split; repeat case_decide; subst;
    try (intros (t & Ht); discriminate);
    try discriminate; try tauto; try (intros; eexists; reflexivity);
    try congruence; try (intros; exfalso; tauto).
Qed.

End Dispatch.

End Deplate.


(** ** [vw/FileIO/DiskImageResource.h]

    The header that follows the correlator view in its source file: the
    plane count a file is read with, the default block read, and the two
    [write_image] functions.  Its [GenericImageFormat] and
    [GenericImageBuffer] are the format and the buffer of [Image]. *)

Module FileIO.
Import Stdlib.Strings.Ascii.
Import Int Math Core Image Strings.

Section DiskImageResource.

Variables PixelFormatEnum ChannelTypeEnum : Type.

(** [num_channels], which is not among the sources and may throw. *)
Variable num_channels : PixelFormatEnum -> Result Z.

Definition multi_msg : string :=
  "Cannot read a multi-plane multi-channel image file into a single-channel buffer."%string.
Definition partial_msg : string :=
  "This DiskImageResource does not support partial reads!"%string.
Definition empty_msg : string :=
  "write_image: cannot write empty image to disk"%string.
Definition asterisk_msg : string :=
  ("write_image: filename must contain * when writing a vector of image views"
   +:+ line_feed)%string.

(** The resource's extent as its [int] accessors return it. *)
Definition res_cols (m_format : ImageFormat PixelFormatEnum ChannelTypeEnum) : Z :=
  to_int32 (cols m_format).
Definition res_rows (m_format : ImageFormat PixelFormatEnum ChannelTypeEnum) : Z :=
  to_int32 (rows m_format).
Definition res_planes (m_format : ImageFormat PixelFormatEnum ChannelTypeEnum) : Z :=
  to_int32 (planes m_format).

(** The computation of [im_planes] in [read(ImageView<PixelT>& buf)] and in
    [read(ImageView<PixelT>& buf, BBox2i bbox)]; [is_compound] is
    [IsCompound<PixelT>::value]. *)
Definition im_planes (is_compound : bool)
    (m_format : ImageFormat PixelFormatEnum ChannelTypeEnum) : Result Z :=
  if negb is_compound then
    rbind (if res_planes m_format >? 1
           then rbind (num_channels (pixel_format m_format)) (fun nc =>
                if nc >? 1 then vw_throw (ArgumentErr multi_msg) else Ok tt)
           else Ok tt) (fun _ =>
    rbind (num_channels (pixel_format m_format)) (fun nc =>
    Ok (Z.max (res_planes m_format) nc)))
  else Ok 1.

(** [read(ImageView<PixelT>& buf)] up to the virtual [read]: the size
    [buf.set_size] is called with. *)
Definition read_size (is_compound : bool)
    (m_format : ImageFormat PixelFormatEnum ChannelTypeEnum) : Result (Z * Z * Z) :=
  rbind (im_planes is_compound m_format) (fun n =>
  Ok (res_cols m_format, res_rows m_format, n)).

(** [virtual void read(GenericImageBuffer const& buf, BBox2i bbox) const],
    the default; [read_all] is what the pure virtual [read(buf)] does. *)
Definition read_block (read_all : Result unit)
    (m_format : ImageFormat PixelFormatEnum ChannelTypeEnum) (bbox : BBox2i)
  : Result unit :=
  if decide (bbox = BBox2i_xywh 0 0 (res_cols m_format) (res_rows m_format))
  then read_all
  else Throw (NoImplErr partial_msg).

(** [read(ImageView<PixelT>& buf, BBox2i bbox)]: the size the view is
    given, then the block read. *)
Definition read_block_size (is_compound : bool) (read_all : Result unit)
    (m_format : ImageFormat PixelFormatEnum ChannelTypeEnum) (bbox : BBox2i)
  : Result (Z * Z * Z) :=
  rbind (im_planes is_compound m_format) (fun n =>
  rbind (read_block read_all m_format bbox) (fun _ =>
  Ok (width bbox, height bbox, n))).

(** *** Writing *)

(** A file that was created and written: its name, the format it was
    created with and where its pixels were taken from. *)
Record FileWrite : Type := mkFileWrite {
  fw_name : string;
  fw_format : ImageFormat PixelFormatEnum ChannelTypeEnum;
  fw_data : pointer
}.

Definition with_planes (f : ImageFormat PixelFormatEnum ChannelTypeEnum) (n : Z)
  : ImageFormat PixelFormatEnum ChannelTypeEnum :=
  mkImageFormat (cols f) (rows f) n (pixel_format f) (channel_type f).

Definition with_format (b : ImageBuffer PixelFormatEnum ChannelTypeEnum)
    (f : ImageFormat PixelFormatEnum ChannelTypeEnum)
  : ImageBuffer PixelFormatEnum ChannelTypeEnum :=
  mkImageBuffer (data b) f (cstride b) (rstride b) (pstride b) (unpremultiplied b).

Definition with_data (b : ImageBuffer PixelFormatEnum ChannelTypeEnum) (d : pointer)
  : ImageBuffer PixelFormatEnum ChannelTypeEnum :=
  mkImageBuffer d (format b) (cstride b) (rstride b) (pstride b) (unpremultiplied b).

(** [for( int i=0; i<files; ++i ) { ... }] with [n] passes left: each pass
    names the file, creates it with the buffer's format, writes the buffer
    and moves the buffer's data by one plane.  The lines sent to the log
    are left out. *)
Fixpoint write_files (filename : string) (files : Z) (n : nat) (i : Z)
    (buf : ImageBuffer PixelFormatEnum ChannelTypeEnum) (out : list FileWrite)
  : list FileWrite :=
  match n with
  | O => out
  | S n' =>
      let name :=
        if files >? 1 then replace_last "*"%char (pretty i) filename else filename in
      write_files filename files n' (to_int32 (i + 1))
        (with_data buf (ptr_add (data buf) (pstride buf)))
        (out ++ [mkFileWrite name (format buf) (data buf)])
  end.

(** [write_image(filename, out_image)] for the buffer [buf] of the
    rasterized image; [out] holds the files written before, and the result
    holds those written when the function returns or throws. *)
Definition write_image (filename : string)
    (buf : ImageBuffer PixelFormatEnum ChannelTypeEnum) (out : list FileWrite)
  : Result unit * list FileWrite :=
  if negb (buf_cols _ _ buf =? 0) && negb (buf_rows _ _ buf =? 0)
     && negb (buf_planes _ _ buf =? 0)
  then
    let files := if contains "*"%char filename then to_int32 (planes (format buf)) else 1 in
    let buf' := if contains "*"%char filename
                then with_format buf (with_planes (format buf) 1) else buf in
    (Ok tt, write_files filename files (Z.to_nat files) 0 buf' out)
  else (vw_throw (ArgumentErr empty_msg), out).

(** The loop of [write_image(filename, out_image_vector)] from index [i]. *)
Fixpoint write_images_from (filename : string) (i : Z)
    (bufs : list (ImageBuffer PixelFormatEnum ChannelTypeEnum)) (out : list FileWrite)
  : Result unit * list FileWrite :=
  match bufs with
  | [] => (Ok tt, out)
  | buf :: bufs' =>
      let name := replace_last "*"%char (pretty i) filename in
      match write_image name buf out with
      | (Ok _, out') => write_images_from filename (to_int32 (i + 1)) bufs' out'
      | (Throw e, out') => (Throw e, out')
      end
  end.

(** [write_image(filename, out_image_vector)] *)
Definition write_image_vector (filename : string)
    (bufs : list (ImageBuffer PixelFormatEnum ChannelTypeEnum)) (out : list FileWrite)
  : Result unit * list FileWrite :=
  if negb (contains "*"%char filename)
  then (vw_throw (ArgumentErr asterisk_msg), out)
  else write_images_from filename 0 bufs out.

(** An image without pixels. *)
Definition is_empty (buf : ImageBuffer PixelFormatEnum ChannelTypeEnum) : Prop :=
  cols (format buf) = 0 \/ rows (format buf) = 0 \/ planes (format buf) = 0.

Definition fits_uint32 (buf : ImageBuffer PixelFormatEnum ChannelTypeEnum) : Prop :=
  0 <= cols (format buf) < 2 ^ 32 /\ 0 <= rows (format buf) < 2 ^ 32
  /\ 0 <= planes (format buf) < 2 ^ 32.

Lemma classic_empty (buf : ImageBuffer PixelFormatEnum ChannelTypeEnum) :
  is_empty buf \/ ~ is_empty buf.
Proof. unfold is_empty. lia. Qed.

(** *** Properties of reading *)

(** X16.  A file read into a view of a fundamental pixel type is refused exactly
    when it has several planes and several channels; otherwise the view
    gets as many planes as the file has planes times channels.  A view of a
    compound pixel type gets one plane. *)
Theorem read_size_planes (m_format : ImageFormat PixelFormatEnum ChannelTypeEnum)
    (nc : Z) :
  num_channels (pixel_format m_format) = Ok nc ->
  1 <= res_planes m_format -> 1 <= nc ->
  (read_size false m_format = Throw (ArgumentErr multi_msg)
   <-> 1 < res_planes m_format /\ 1 < nc)
  /\ (~ (1 < res_planes m_format /\ 1 < nc) ->
      read_size false m_format
      = Ok (res_cols m_format, res_rows m_format, res_planes m_format * nc))
  /\ read_size true m_format = Ok (res_cols m_format, res_rows m_format, 1).
Proof.
  intros Hnc Hp Hc. unfold read_size, im_planes, vw_throw; simpl. rewrite Hnc; simpl.
  destruct (res_planes m_format >? 1) eqn:Hgp; simpl;
    [apply Z.gtb_lt in Hgp | rewrite Z.gtb_ltb, Z.ltb_ge in Hgp];
    (destruct (nc >? 1) eqn:Hgc; simpl;
      [apply Z.gtb_lt in Hgc | rewrite Z.gtb_ltb, Z.ltb_ge in Hgc]);
    repeat split; try tauto; try lia; try discriminate;
    try (intros _; do 2 f_equal; nia).
Qed.

(** X17.  The default block read serves the whole image only: for every other
    box it raises [NoImplErr], so a block read into a view returns only for
    the box of the whole image, with the view sized to the image. *)
Theorem read_block_whole_image_only (is_compound : bool) (read_all : Result unit)
    (m_format : ImageFormat PixelFormatEnum ChannelTypeEnum) (bbox : BBox2i) :
  (bbox <> BBox2i_xywh 0 0 (res_cols m_format) (res_rows m_format) ->
   read_block read_all m_format bbox = Throw (NoImplErr partial_msg))
  /\ (forall w h n : Z,
        read_block_size is_compound read_all m_format bbox = Ok (w, h, n) ->
        bbox = BBox2i_xywh 0 0 (res_cols m_format) (res_rows m_format)
        /\ read_all = Ok tt
        /\ w = res_cols m_format /\ h = res_rows m_format
        /\ im_planes is_compound m_format = Ok n).
Proof.
  split.
  - intros Hne. unfold read_block. now rewrite decide_False.
  - intros w h n. unfold read_block_size, read_block.
    destruct (im_planes is_compound m_format) as [n'|e]; simpl; [|discriminate].
    case_decide as Hd; [|discriminate].
    destruct read_all as [[]|e]; simpl; [|discriminate].
    intros [= <- <- <-]. subst bbox.
    rewrite width_xywh, height_xywh. unfold res_cols, res_rows.
    rewrite !to_int32_idem. auto.
Qed.

(** *** Properties of writing *)

Lemma to_int32_zero (z : Z) : 0 <= z < 2 ^ 32 -> (to_int32 z =? 0) = (z =? 0).
Proof.
  intros Hz. destruct (z =? 0) eqn:H0.
  - apply Z.eqb_eq in H0. now subst.
  - apply Z.eqb_neq in H0. apply Z.eqb_neq.
    unfold to_int32, wrap.
    change (2 ^ (32 - 1)) with 2147483648. change (2 ^ 32) with 4294967296 in *.
    destruct (Z_lt_ge_dec z 2147483648).
    + rewrite Z.mod_small by lia. lia.
    + replace (z + 2147483648) with (z - 2147483648 + 1 * 4294967296) by lia.
      rewrite Z_mod_plus_full, Z.mod_small by lia. lia.
Qed.

Lemma nonempty_test (buf : ImageBuffer PixelFormatEnum ChannelTypeEnum) :
  fits_uint32 buf ->
  (negb (buf_cols _ _ buf =? 0) && negb (buf_rows _ _ buf =? 0)
   && negb (buf_planes _ _ buf =? 0) = true <-> ~ is_empty buf).
Proof.
  intros (Hc & Hr & Hp). unfold buf_cols, buf_rows, buf_planes, is_empty.
  rewrite !to_int32_zero by assumption.
  rewrite !andb_true_iff, !negb_true_iff, !Z.eqb_neq. tauto.
Qed.

(** X18.  [write_image] raises [ArgumentErr] exactly for an image without
    pixels, and then no file is created. *)
Theorem write_image_empty (filename : string)
    (buf : ImageBuffer PixelFormatEnum ChannelTypeEnum) (out : list FileWrite) :
  fits_uint32 buf ->
  (fst (write_image filename buf out) = Throw (ArgumentErr empty_msg) <-> is_empty buf)
  /\ (is_empty buf -> snd (write_image filename buf out) = out)
  /\ (~ is_empty buf -> fst (write_image filename buf out) = Ok tt).
Proof.
  intros Hfit. pose proof (nonempty_test buf Hfit) as Htest.
  unfold write_image, vw_throw.
  destruct (negb (buf_cols _ _ buf =? 0) && negb (buf_rows _ _ buf =? 0)
            && negb (buf_planes _ _ buf =? 0)); simpl.
  - assert (Hne : ~ is_empty buf) by (apply Htest; reflexivity).
    repeat split; try tauto; try discriminate.
  - assert (He : is_empty buf).
    { destruct (classic_empty buf) as [He|Hne]; [exact He|].
      apply Htest in Hne. discriminate. }
    repeat split; tauto.
Qed.

Lemma ptr_add_add (d : pointer) (a b : Z) :
  ptr_add (ptr_add d a) b = ptr_add d (a + b).
Proof. unfold ptr_add; simpl. f_equal. lia. Qed.

(** What the loop of [write_image] writes in [n] passes from index [i0],
    when the buffer's data is [i0] planes after [d0]. *)
Lemma write_files_spec (filename : string) (files : Z) (d0 : pointer)
    (f : ImageFormat PixelFormatEnum ChannelTypeEnum) (ps : Z) (n : nat) :
  forall (i0 : nat) (buf : ImageBuffer PixelFormatEnum ChannelTypeEnum)
         (out : list FileWrite),
    data buf = ptr_add d0 (Z.of_nat i0 * ps) -> pstride buf = ps -> format buf = f ->
    Z.of_nat (i0 + n) < 2 ^ 31 ->
    write_files filename files n (Z.of_nat i0) buf out
    = out ++ map (fun k : nat =>
                    mkFileWrite
                      (if files >? 1
                       then replace_last "*"%char (pretty (Z.of_nat k)) filename
                       else filename)
                      f (ptr_add d0 (Z.of_nat k * ps)))
                 (seq i0 n).
Proof.
  induction n as [|n IH]; intros i0 buf out Hd Hp Hf Hlt; simpl.
  - now rewrite app_nil_r.
  - rewrite (to_int32_id (Z.of_nat i0 + 1)) by (unfold int32_range; lia).
    replace (Z.of_nat i0 + 1) with (Z.of_nat (S i0)) by lia.
    rewrite (IH (S i0)); simpl; try assumption; try lia.
    + rewrite <- app_assoc. simpl. now rewrite Hd, Hf.
    + rewrite Hd, Hp, ptr_add_add. f_equal. lia.
Qed.

Lemma with_planes_same (f : ImageFormat PixelFormatEnum ChannelTypeEnum) :
  with_planes f (planes f) = f.
Proof. now destruct f. Qed.

(** X19.  An image written under a name without an asterisk, or an image of one
    plane, goes to exactly one file, with all its planes and under the name
    as it was given: an asterisk in the name of a one-plane image is kept. *)
Theorem write_image_one_file (filename : string)
    (buf : ImageBuffer PixelFormatEnum ChannelTypeEnum) (out : list FileWrite) :
  fits_uint32 buf -> ~ is_empty buf ->
  contains "*"%char filename = false \/ planes (format buf) = 1 ->
  write_image filename buf out
  = (Ok tt, out ++ [mkFileWrite filename (format buf) (data buf)]).
Proof.
  intros Hfit Hne Hcase. unfold write_image.
  destruct (nonempty_test buf Hfit) as (_ & Ht). rewrite (Ht Hne).
  destruct (contains "*"%char filename) eqn:Hstar.
  - destruct Hcase as [|H1]; [discriminate|]. rewrite H1.
    change (to_int32 1) with 1. simpl.
    now rewrite <- H1, with_planes_same.
  - reflexivity.
Qed.

(** X20.  An image of several planes written under a name with an asterisk
    goes to one file per plane: file [k] is named by putting [k] in place of
    the last asterisk, is created with one plane and takes its pixels [k]
    plane strides after the start of the buffer. *)
Theorem write_image_per_plane (pre post : string)
    (buf : ImageBuffer PixelFormatEnum ChannelTypeEnum) (out : list FileWrite) :
  cols (format buf) <> 0 -> rows (format buf) <> 0 ->
  0 <= cols (format buf) < 2 ^ 32 -> 0 <= rows (format buf) < 2 ^ 32 ->
  2 <= planes (format buf) < 2 ^ 31 ->
  contains "*"%char post = false ->
  write_image (pre +:+ String "*"%char post) buf out
  = (Ok tt,
     out ++ map (fun k : nat =>
                   mkFileWrite (pre +:+ pretty (Z.of_nat k) +:+ post)
                     (with_planes (format buf) 1)
                     (ptr_add (data buf) (Z.of_nat k * pstride buf)))
                (seq 0 (Z.to_nat (planes (format buf))))).
Proof.
  intros Hc Hr Hcr Hrr Hp Hpost. unfold write_image.
  assert (Hfit : fits_uint32 buf) by (unfold fits_uint32; lia).
  assert (Hne : ~ is_empty buf) by (unfold is_empty; lia).
  destruct (nonempty_test buf Hfit) as (_ & Ht). rewrite (Ht Hne).
  assert (Hstar : contains "*"%char (pre +:+ String "*"%char post) = true).
  { rewrite contains_app. simpl. now rewrite orb_true_r. }
  rewrite Hstar.
  rewrite (to_int32_id (planes (format buf))) by (unfold int32_range; lia).
  f_equal.
  rewrite (write_files_spec _ _ (data buf) (with_planes (format buf) 1) (pstride buf)
             _ 0 (with_format buf (with_planes (format buf) 1)) out);
    try reflexivity.
  - f_equal. apply map_ext. intros k.
    replace (planes (format buf) >? 1) with true by (symmetry; apply Z.gtb_lt; lia).
    now rewrite (replace_last_app _ _ pre post Hpost).
  - simpl. destruct (data buf) as [blk off]. unfold ptr_add; simpl. f_equal. lia.
  - simpl. lia.
Qed.

(** No asterisk occurs among the digits of a number. *)
Lemma pretty_N_go_no_asterisk (x : N) :
  forall s : string,
    contains "*"%char s = false -> contains "*"%char (pretty_N_go x s) = false.
Proof.
  induction (N.lt_wf_0 x) as [x _ IH]; intros s Hs.
  destruct (N.eq_dec x 0%N) as [->|Hx].
  - now rewrite pretty_N_go_0.
  - rewrite pretty_N_go_step by lia. apply IH.
    + apply N.div_lt; lia.
    + simpl. rewrite Hs, orb_false_r.
      unfold pretty_N_char. now repeat case_match.
Qed.

Lemma pretty_no_asterisk (i : Z) : 0 <= i -> contains "*"%char (pretty i) = false.
Proof.
  intros Hi. destruct i as [|p|p]; [reflexivity| |lia].
  unfold pretty, pretty_Z, pretty, pretty_positive, pretty, pretty_N.
  rewrite decide_False by discriminate.
  now apply pretty_N_go_no_asterisk.
Qed.

(** Image [i] of a vector, when it has pixels, goes to one file named by
    putting [i] in place of the only asterisk of the name. *)
Lemma write_image_numbered (pre post : string) (i : Z)
    (buf : ImageBuffer PixelFormatEnum ChannelTypeEnum) (out : list FileWrite) :
  contains "*"%char pre = false -> contains "*"%char post = false -> 0 <= i ->
  fits_uint32 buf -> ~ is_empty buf ->
  write_image (replace_last "*"%char (pretty i) (pre +:+ String "*"%char post)) buf out
  = (Ok tt, out ++ [mkFileWrite (pre +:+ pretty i +:+ post) (format buf) (data buf)]).
Proof.
  intros Hpre Hpost Hi Hfit Hne.
  rewrite (replace_last_app _ _ pre post Hpost).
  apply write_image_one_file; try assumption.
  left. now rewrite !contains_app, Hpre, Hpost, (pretty_no_asterisk i Hi).
Qed.

Lemma write_images_from_prefix (pre post : string)
    (good : list (ImageBuffer PixelFormatEnum ChannelTypeEnum)) :
  contains "*"%char pre = false -> contains "*"%char post = false ->
  forall (i0 : nat) (rest : list (ImageBuffer PixelFormatEnum ChannelTypeEnum))
         (out : list FileWrite),
    Forall (fun b => fits_uint32 b /\ ~ is_empty b) good ->
    Z.of_nat (i0 + length good) < 2 ^ 31 ->
    write_images_from (pre +:+ String "*"%char post) (Z.of_nat i0) (good ++ rest) out
    = write_images_from (pre +:+ String "*"%char post)
        (Z.of_nat (i0 + length good)) rest
        (out ++ imap (fun k b =>
                        mkFileWrite (pre +:+ pretty (Z.of_nat (i0 + k)) +:+ post)
                          (format b) (data b)) good).
Proof.
  intros Hpre Hpost. induction good as [|b good IH]; intros i0 rest out Hall Hlt.
  - simpl. now rewrite Nat.add_0_r, app_nil_r.
  - apply Forall_cons in Hall as ((Hfit & Hne) & Hall). simpl in Hlt. simpl.
    rewrite (write_image_numbered pre post (Z.of_nat i0) b out) by (auto; lia).
    rewrite (to_int32_id (Z.of_nat i0 + 1)) by (unfold int32_range; lia).
    replace (Z.of_nat i0 + 1) with (Z.of_nat (S i0)) by lia.
    rewrite (IH (S i0)) by (auto; lia).
    replace (i0 + S (length good))%nat with (S i0 + length good)%nat by lia.
    f_equal. rewrite <- app_assoc. simpl. rewrite Nat.add_0_r.
    f_equal. f_equal. apply imap_ext. intros k x _. simpl.
    now replace (S (i0 + k)) with (i0 + S k)%nat by lia.
Qed.

(** X21.  A vector of images is written only under a name with an asterisk:
    without one [ArgumentErr] is raised and nothing is written.  Under a
    name with one asterisk, images that all have pixels go to one file each,
    image [k] under the name with [k] in place of the asterisk. *)
Theorem write_image_vector_files (pre post : string)
    (bufs : list (ImageBuffer PixelFormatEnum ChannelTypeEnum))
    (out : list FileWrite) :
  contains "*"%char pre = false -> contains "*"%char post = false ->
  Forall (fun b => fits_uint32 b /\ ~ is_empty b) bufs ->
  Z.of_nat (length bufs) < 2 ^ 31 ->
  write_image_vector (pre +:+ String "*"%char post) bufs out
  = (Ok tt,
     out ++ imap (fun k b =>
                    mkFileWrite (pre +:+ pretty (Z.of_nat k) +:+ post)
                      (format b) (data b)) bufs)
  /\ write_image_vector (pre +:+ post) bufs out
     = (Throw (ArgumentErr asterisk_msg), out).
Proof.
  intros Hpre Hpost Hall Hlen. unfold write_image_vector, vw_throw. split.
  - rewrite contains_app; simpl. rewrite orb_true_r; simpl.
    pose proof (write_images_from_prefix pre post bufs Hpre Hpost 0 [] out Hall Hlen) as H.
    rewrite app_nil_r in H. exact H.
  - now rewrite contains_app, Hpre, Hpost.
Qed.

(** X22.  Writing a vector stops at the first image without pixels: the images
    before it have been written, it and the images after it have not. *)
Theorem write_image_vector_stops (pre post : string)
    (good rest : list (ImageBuffer PixelFormatEnum ChannelTypeEnum))
    (bad : ImageBuffer PixelFormatEnum ChannelTypeEnum) (out : list FileWrite) :
  contains "*"%char pre = false -> contains "*"%char post = false ->
  Forall (fun b => fits_uint32 b /\ ~ is_empty b) good ->
  fits_uint32 bad -> is_empty bad ->
  Z.of_nat (length good) < 2 ^ 31 ->
  write_image_vector (pre +:+ String "*"%char post) (good ++ bad :: rest) out
  = (Throw (ArgumentErr empty_msg),
     out ++ imap (fun k b =>
                    mkFileWrite (pre +:+ pretty (Z.of_nat k) +:+ post)
                      (format b) (data b)) good).
Proof.
  intros Hpre Hpost Hall Hfit Hbad Hlen. unfold write_image_vector.
  rewrite contains_app; simpl. rewrite orb_true_r; simpl.
  pose proof (write_images_from_prefix pre post good Hpre Hpost 0 (bad :: rest) out
                Hall Hlen) as Hrun.
  change (Z.of_nat 0) with 0 in Hrun. rewrite Hrun. simpl.
  destruct (write_image_empty
              (replace_last "*"%char (pretty (Z.of_nat (length good)))
                 (pre +:+ String "*"%char post)) bad
              (out ++ imap (fun k b =>
                              mkFileWrite (pre +:+ pretty (Z.of_nat k) +:+ post)
                                (format b) (data b)) good) Hfit)
    as (Hthrow & Hout & _).
  destruct (write_image _ bad _) as [r out'] eqn:Hw. simpl in Hthrow, Hout.
  rewrite (proj2 Hthrow Hbad), (Hout Hbad). reflexivity.
Qed.

End DiskImageResource.

Arguments mkFileWrite {PixelFormatEnum ChannelTypeEnum}.
Arguments write_image {PixelFormatEnum ChannelTypeEnum}.
Arguments write_image_vector {PixelFormatEnum ChannelTypeEnum}.
Arguments with_planes {PixelFormatEnum ChannelTypeEnum}.
Arguments is_empty {PixelFormatEnum ChannelTypeEnum}.
Arguments fits_uint32 {PixelFormatEnum ChannelTypeEnum}.
Arguments read_size {PixelFormatEnum ChannelTypeEnum}.
Arguments im_planes {PixelFormatEnum ChannelTypeEnum}.
Arguments read_block {PixelFormatEnum ChannelTypeEnum}.
Arguments read_block_size {PixelFormatEnum ChannelTypeEnum}.
Arguments res_cols {PixelFormatEnum ChannelTypeEnum}.
Arguments res_rows {PixelFormatEnum ChannelTypeEnum}.
Arguments res_planes {PixelFormatEnum ChannelTypeEnum}.

(** *** The reading and writing properties on the instance of [Image] *)

Definition channels_or_throw (f : PixelFormat) : Result Z :=
  match f with
  | VW_PIXEL_UNKNOWN => Throw (ArgumentErr "num_channels: unknown pixel format")
  | _ => Ok (channels_of f)
  end.

(** Three planes of 4 by 2 gray bytes, and an image without pixels. *)
Definition gray_stack : ImageBuffer PixelFormat ChannelType :=
  mkImageBuffer (mkPointer 9%N 0)
    (mkImageFormat 4 2 3 VW_PIXEL_GRAY VW_CHANNEL_UINT8) 1 4 8 false.

Definition no_pixels : ImageBuffer PixelFormat ChannelType :=
  mkImageBuffer null (mkImageFormat 0 0 0 VW_PIXEL_GRAY VW_CHANNEL_UINT8) 0 0 0 false.

Example write_gray_stack :
  write_image "tile_*.tif" gray_stack []
  = (Ok tt,
     [mkFileWrite "tile_0.tif" (mkImageFormat 4 2 1 VW_PIXEL_GRAY VW_CHANNEL_UINT8)
        (mkPointer 9%N 0);
      mkFileWrite "tile_1.tif" (mkImageFormat 4 2 1 VW_PIXEL_GRAY VW_CHANNEL_UINT8)
        (mkPointer 9%N 8);
      mkFileWrite "tile_2.tif" (mkImageFormat 4 2 1 VW_PIXEL_GRAY VW_CHANNEL_UINT8)
        (mkPointer 9%N 16)]).
Proof. reflexivity. Qed.

Example write_rgb_vga_asterisk :
  write_image "tile_*.tif" rgb_vga []
  = (Ok tt, [mkFileWrite "tile_*.tif" (format rgb_vga) (data rgb_vga)]).
Proof. reflexivity. Qed.

Lemma rgb_vga_has_pixels : fits_uint32 rgb_vga /\ ~ is_empty rgb_vga.
Proof. unfold fits_uint32, is_empty; simpl. lia. Qed.

Lemma gray_stack_has_pixels : fits_uint32 gray_stack /\ ~ is_empty gray_stack.
Proof. unfold fits_uint32, is_empty; simpl. lia. Qed.

Lemma no_pixels_is_empty : fits_uint32 no_pixels /\ is_empty no_pixels.
Proof. unfold fits_uint32, is_empty; simpl. lia. Qed.

Lemma read_size_planes_witness :
  (read_size channels_or_throw false (format gray_stack) = Throw (ArgumentErr multi_msg)
   <-> 1 < res_planes (format gray_stack) /\ 1 < 1)
  /\ (~ (1 < res_planes (format gray_stack) /\ 1 < 1) ->
      read_size channels_or_throw false (format gray_stack)
      = Ok (res_cols (format gray_stack), res_rows (format gray_stack),
            res_planes (format gray_stack) * 1))
  /\ read_size channels_or_throw true (format gray_stack)
     = Ok (res_cols (format gray_stack), res_rows (format gray_stack), 1).
Proof.
  apply (read_size_planes PixelFormat ChannelType channels_or_throw
           (format gray_stack) 1); [reflexivity | by_computation | lia].
Defined.

Lemma read_block_whole_image_only_witness :
  read_block (Ok tt) (format rgb_vga) window = Throw (NoImplErr partial_msg).
Proof.
  apply (proj1 (read_block_whole_image_only PixelFormat ChannelType channels_or_throw
                  false (Ok tt) (format rgb_vga) window)).
  discriminate.
Defined.

Lemma write_image_empty_witness :
  (fst (write_image "tile.tif" no_pixels []) = Throw (ArgumentErr empty_msg)
   <-> is_empty no_pixels)
  /\ (is_empty no_pixels -> snd (write_image "tile.tif" no_pixels []) = [])
  /\ (~ is_empty no_pixels -> fst (write_image "tile.tif" no_pixels []) = Ok tt).
Proof.
  apply (write_image_empty PixelFormat ChannelType "tile.tif" no_pixels []).
  exact (proj1 no_pixels_is_empty).
Defined.

Lemma write_image_one_file_witness :
  write_image "tile.tif" gray_stack []
  = (Ok tt, [] ++ [mkFileWrite "tile.tif" (format gray_stack) (data gray_stack)]).
Proof.
  apply (write_image_one_file PixelFormat ChannelType "tile.tif" gray_stack []).
  - exact (proj1 gray_stack_has_pixels).
  - exact (proj2 gray_stack_has_pixels).
  - left. reflexivity.
Defined.

Lemma write_image_per_plane_witness :
  write_image ("tile_" +:+ String "*"%char ".tif") gray_stack []
  = (Ok tt,
     [] ++ map (fun k : nat =>
                  mkFileWrite ("tile_" +:+ pretty (Z.of_nat k) +:+ ".tif")
                    (with_planes (format gray_stack) 1)
                    (ptr_add (data gray_stack) (Z.of_nat k * pstride gray_stack)))
               (seq 0 (Z.to_nat (planes (format gray_stack))))).
Proof.
  apply (write_image_per_plane PixelFormat ChannelType "tile_" ".tif" gray_stack []);
    simpl; first [reflexivity | lia].
Defined.

Lemma write_image_vector_files_witness :
  write_image_vector ("tile_" +:+ String "*"%char ".tif") [rgb_vga; gray_stack] []
  = (Ok tt,
     [] ++ imap (fun k b =>
                   mkFileWrite ("tile_" +:+ pretty (Z.of_nat k) +:+ ".tif")
                     (format b) (data b)) [rgb_vga; gray_stack])
  /\ write_image_vector ("tile_" +:+ ".tif") [rgb_vga; gray_stack] []
     = (Throw (ArgumentErr asterisk_msg), []).
Proof.
  apply (write_image_vector_files PixelFormat ChannelType "tile_" ".tif"
           [rgb_vga; gray_stack] []).
  - reflexivity.
  - reflexivity.
  - constructor; [exact rgb_vga_has_pixels|].
    constructor; [exact gray_stack_has_pixels|]. constructor.
  - simpl. lia.
Defined.

Lemma write_image_vector_stops_witness :
  write_image_vector ("tile_" +:+ String "*"%char ".tif")
    ([rgb_vga] ++ no_pixels :: [gray_stack]) []
  = (Throw (ArgumentErr empty_msg),
     [] ++ imap (fun k b =>
                   mkFileWrite ("tile_" +:+ pretty (Z.of_nat k) +:+ ".tif")
                     (format b) (data b)) [rgb_vga]).
Proof.
  apply (write_image_vector_stops PixelFormat ChannelType "tile_" ".tif"
           [rgb_vga] [gray_stack] no_pixels []).
  - reflexivity.
  - reflexivity.
  - constructor; [exact rgb_vga_has_pixels|]. constructor.
  - exact (proj1 no_pixels_is_empty).
  - exact (proj2 no_pixels_is_empty).
  - simpl. lia.
Defined.

#[local] Instance PixelFormat_eq_dec : EqDecision PixelFormat.
Proof. solve_decision. Defined.
#[local] Instance ChannelType_eq_dec : EqDecision ChannelType.
Proof. solve_decision. Defined.

Example dispatch_rgb_bytes :
  Deplate.dispatch PixelFormat ChannelType VW_PIXEL_GRAY VW_PIXEL_GRAYA
    VW_CHANNEL_UINT8 VW_CHANNEL_INT16 VW_PIXEL_RGB VW_CHANNEL_UINT8
  = Ok Deplate.PixelRGBA_uint8.
Proof. reflexivity. Qed.

Example dispatch_rgb_shorts :
  Deplate.dispatch PixelFormat ChannelType VW_PIXEL_GRAY VW_PIXEL_GRAYA
    VW_CHANNEL_UINT8 VW_CHANNEL_INT16 VW_PIXEL_RGB VW_CHANNEL_INT16
  = Throw (ArgumentErr Deplate.unsupported_msg).
Proof. reflexivity. Qed.

End FileIO.
